(** * Tiling orchestration (tools/tiling_pyhist.py)

    A shallow embedding of the PyHIST tiling script: classification of the
    input by file extension, extraction of a ZIP into a temporary directory,
    one [docker run] per image, collection of the tile directories in
    completion order, packaging of the tiles into the output ZIP and removal
    of the temporary directory.

    The file system, the log file, the spawned processes and the written
    archives form an explicit state; everything the script cannot decide by
    itself (what [docker] answers, what the archive holds, which name
    [mkdtemp] picks, in which order the futures complete) is read from an
    environment record. *)

From Stdlib Require Import List String Ascii Bool Arith Lia Permutation.
Import ListNotations.

Local Open Scope string_scope.
Local Open Scope list_scope.

(** ** Strings *)

Module Str.

(** [str.lower] on the ASCII range: the letters A-Z move to a-z, every other
    byte stays. Suffixes of the recognised set are ASCII. *)
Definition lower_ascii (c : ascii) : ascii :=
  let n := nat_of_ascii c in
  if ((65 <=? n) && (n <=? 90))%nat then ascii_of_nat (n + 32) else c.

Fixpoint lower (s : string) : string :=
  match s with
  | EmptyString => EmptyString
  | String c t => String (lower_ascii c) (lower t)
  end.

(** [str.rfind(c)]: index of the last occurrence, [None] for Python's -1. *)
Fixpoint rfind (c : ascii) (s : string) : option nat :=
  match s with
  | EmptyString => None
  | String a t =>
      match rfind c t with
      | Some i => Some (S i)
      | None => if Ascii.eqb a c then Some 0 else None
      end
  end.

(** Membership of a string in a list of strings, as a boolean. *)
Definition mem (x : string) (l : list string) : bool :=
  existsb (String.eqb x) l.

End Str.

(** ** Paths (pathlib.PurePath) *)

(** An absolute path is the list of its components below the root. *)
Definition Path := list string.

Module PathOps.

Fixpoint eqb (p q : Path) : bool :=
  match p, q with
  | [], [] => true
  | a :: p', b :: q' => String.eqb a b && eqb p' q'
  | _, _ => false
  end.

(** [Path.name]: the final component, the empty string for the root. *)
Definition name (p : Path) : string := last p "".

(** [Path.parent]. *)
Definition parent (p : Path) : Path := removelast p.

(** The index at which [Path.suffix] and [Path.stem] cut the name:
    [i = name.rfind('.')] when [0 < i < len(name) - 1]. *)
Definition cut (n : string) : option nat :=
  match Str.rfind "." n with
  | Some i =>
      if ((0 <? i) && (i <? String.length n - 1))%nat then Some i else None
  | None => None
  end.

(** [name[i:]] at the cut, else the empty string. *)
Definition suffix_of (n : string) : string :=
  match cut n with
  | Some i => substring i (String.length n - i) n
  | None => ""
  end.

(** [name[:i]] at the cut, else the whole name. *)
Definition stem_of (n : string) : string :=
  match cut n with
  | Some i => substring 0 i n
  | None => n
  end.

(** [Path.suffix]. *)
Definition suffix (p : Path) : string := suffix_of (name p).

(** [Path.stem]. *)
Definition stem (p : Path) : string := stem_of (name p).

(** [str(path)]. *)
Definition to_str (p : Path) : string :=
  match p with
  | [] => "/"
  | _ => String.concat "" (map (fun c => "/" ++ c)%string p)
  end.

(** [strip_prefix base p] is [Some rel] when [p = base ++ rel]. *)
Fixpoint strip_prefix (base p : Path) : option Path :=
  match base, p with
  | [], _ => Some p
  | b :: base', c :: p' => if String.eqb b c then strip_prefix base' p' else None
  | _ :: _, [] => None
  end.

(** Whether [p] is [base] or lies below it. *)
Definition below (base p : Path) : bool :=
  match strip_prefix base p with
  | Some _ => true
  | None => false
  end.

End PathOps.

Import PathOps.

(** ** Recognised extensions *)

Definition VALID_EXTENSIONS : list string :=
  [".png"; ".jpg"; ".jpeg"; ".tif"; ".tiff"; ".svs"; ".dat"].

(** [path.suffix.lower() in VALID_EXTENSIONS] *)
Definition is_image (p : Path) : bool :=
  Str.mem (Str.lower (suffix p)) VALID_EXTENSIONS.

(** [path.suffix.lower() == ".zip"] *)
Definition is_zip (p : Path) : bool :=
  String.eqb (Str.lower (suffix p)) ".zip".

(** ** The world of one run *)

Inductive Level := INFO | WARNING | ERROR.

Inductive Exn :=
| RuntimeError (msg : string)
| ValueError (msg : string)
| OSError (path : Path)
| FileExistsError (path : Path)
| FileNotFoundError (path : Path)
| ZlibError (msg : string)
| NotImplementedError (msg : string).

(** Exit of a [subprocess.run(..., check=True)]: status zero, or
    [CalledProcessError] carrying the captured standard error. *)
Inductive Exit :=
| Exit0
| NonZero (stderr : string).

(** What the job of one image meets. [output_root.mkdir(exist_ok=True)]
    raises (the name [output] is taken by a file, the parent is missing):
    nothing is logged or spawned. Or the directory is there and the
    container runs: it exits with a non-zero status, or with status zero,
    after which the files named [tiles] exist, next to whatever was there
    before, as [*.png] entries of the expected tile folder. *)
Inductive ToolOutcome :=
| ToolFailed (stderr : string)
| ToolDone (tiles : list string)
| MkdirRaised (e : Exn).

(** A member of an archive, by the components of its name: the directories
    and the final component. The names covered are the relative ones without
    a step to a parent, as the ZIP format asks of a name; these are the
    names under which [extractall] stores a member below its root. *)
Record Member := mkMember { mdir : list string; mname : string }.

(** An archive that is opened and extracted without an exception: its
    member names in [namelist] order, and the [*.png] file names that
    [extractall] leaves in each directory, given relative to the extraction
    root. *)
Record ZipData := mkZip {
  namelist : list Member;
  extracted_png : Path -> list string
}.

(** An archive on which [zipfile] raises, on opening or in the middle of
    [extractall]: [zip_error] is [None] for [BadZipFile] and the exception
    otherwise ([zlib.error] on a damaged stream, [NotImplementedError] on an
    unknown method, [FileNotFoundError] on a missing file); [zip_left] lists
    the [*.png] files written below the extraction root by then. *)
Record ZipFailure := mkFailure {
  zip_error : option Exn;
  zip_left : Path -> list string
}.

Record Env := mkEnv {
  (** [Path.resolve] *)
  resolve : Path -> Path;
  (** exit of [docker pull mmunozag/pyhist] *)
  docker_pull : Exit;
  (** [tempfile.mkdtemp], given the temporary directories on disk *)
  mkdtemp : list Path -> Path;
  (** [zipfile.ZipFile(path, 'r')] and [extractall]: the archive when both
      go through, [None] when one of them raises *)
  read_zip : Path -> option ZipData;
  (** the job of an image *)
  pyhist : Path -> ToolOutcome;
  (** [concurrent.futures.as_completed]: the submitted images in the order
      in which their futures complete *)
  as_completed : list Path -> list Path;
  (** whether [zipfile.ZipFile(path, 'w')] can open its file *)
  zip_writable : Path -> bool;
  (** how [zipfile] fails on an archive for which [read_zip] is [None] *)
  zip_failure : Path -> ZipFailure;
  (** [shutil.rmtree] on a tree in which containers have left files: [None]
      when the tree is removed, else what is left of it, by directory
      relative to its root *)
  rmtree_left : Path -> option (Path -> list string)
}.

(** The messages of the log file, by format string and arguments. *)
Inductive Msg :=
| ZipExtracted (temp_dir : Path)
| PulledImage
| PullFailed (stderr : string)
| RunningDocker (cmd : list string)
| DockerOk (image_path : Path)
| DockerFailed (image_path : Path) (stderr : string)
| NoTiles (tile_dir : Path)
| ProcessingFailed (img_path : Path) (e : Exn)
| OutputZipCreated (output_zip_path : Path)
| Completed.

Record State := mkState {
  (** temporary directories on disk *)
  dirs : list Path;
  (** the [*.png] files of a directory, by name; [Path.glob] yields them in
      the order of the file system, the order of this list has no meaning *)
  glob_png : Path -> list string;
  (** tile_processing.log, oldest entry first *)
  log : list (Level * Msg);
  (** command lines of the external processes spawned so far *)
  procs : list (list string);
  (** member names of the archives written so far *)
  archives : Path -> option (list string);
  (** the [output] directories made by the jobs and still on disk *)
  outputs : list Path
}.

(** ** State and exceptions *)

Inductive Result (A : Type) :=
| Ok (a : A)
| Raise (e : Exn).

Arguments Ok {A} a.
Arguments Raise {A} e.

Definition M (A : Type) : Type := State -> Result A * State.

Definition ret {A} (a : A) : M A := fun s => (Ok a, s).

Definition raise {A} (e : Exn) : M A := fun s => (Raise e, s).

Definition bind {A B} (m : M A) (k : A -> M B) : M B :=
  fun s =>
    match m s with
    | (Ok a, s') => k a s'
    | (Raise e, s') => (Raise e, s')
    end.

(** [try: body except Exception as e: handler] *)
Definition try_except {A} (body : M A) (handler : Exn -> M A) : M A :=
  fun s =>
    match body s with
    | (Ok a, s') => (Ok a, s')
    | (Raise e, s') => handler e s'
    end.

Declare Scope m_scope.
Delimit Scope m_scope with M.
Notation "x <- m ;; k" := (bind m (fun x => k))
  (at level 61, m at next level, right associativity) : m_scope.
Notation "m ;; k" := (bind m (fun _ => k))
  (at level 61, right associativity) : m_scope.
Local Open Scope m_scope.

Definition logging (lvl : Level) (msg : Msg) : M unit :=
  fun s => (Ok tt, mkState (dirs s) (glob_png s) (log s ++ [(lvl, msg)])
                           (procs s) (archives s) (outputs s)).

Definition spawn (cmd : list string) : M unit :=
  fun s => (Ok tt, mkState (dirs s) (glob_png s) (log s)
                           (procs s ++ [cmd]) (archives s) (outputs s)).

Definition glob (d : Path) : M (list string) :=
  fun s => (Ok (glob_png s d), s).

(** ** Directory contents *)

Definition add_file (x : string) (l : list string) : list string :=
  if Str.mem x l then l else l ++ [x].

(** Writing the files [new] into a directory that holds [old]: the names of
    both, each once. The order given here to the listing stands for the one
    of the file system and carries no meaning. *)
Definition merge (old new : list string) : list string :=
  fold_left (fun acc x => add_file x acc) new old.

Definition write_files (d : Path) (new : list string) : M unit :=
  fun s => (Ok tt,
            mkState (dirs s)
                    (fun d' => if PathOps.eqb d d'
                               then merge (glob_png s d) new
                               else glob_png s d')
                    (log s) (procs s) (archives s) (outputs s)).

(** Making a directory that may be there already. *)
Definition add_dir (d : Path) (l : list Path) : list Path :=
  if existsb (PathOps.eqb d) l then l else l ++ [d].

(** ** The result mapping (a Python dict: insertion ordered, unique keys) *)

Definition dict := list (string * Path).

Fixpoint dict_get (k : string) (m : dict) : option Path :=
  match m with
  | [] => None
  | (k', v) :: m' => if String.eqb k k' then Some v else dict_get k m'
  end.

(** [m[k] = v]: an existing key keeps its position. *)
Fixpoint dict_set (k : string) (v : Path) (m : dict) : dict :=
  match m with
  | [] => [(k, v)]
  | (k', v') :: m' =>
      if String.eqb k k' then (k, v) :: m' else (k', v') :: dict_set k v m'
  end.

(** ** The script *)

Section Script.

Variable env : Env.

(** [tempfile.mkdtemp(prefix="zip_extract_")]: a new directory, with
    nothing below it. *)
Definition mkdtemp_dir : M Path :=
  fun s =>
    let t := mkdtemp env (dirs s) in
    (Ok t, mkState (dirs s ++ [t]) (glob_png s) (log s) (procs s) (archives s)
                   (filter (fun d => negb (below t d)) (outputs s))).

(** [zip_ref.extractall(temp_dir)], as far as it gets: below the new
    directory there is exactly what has been written, [written] listing it
    by directory. *)
Definition extractall (written : Path -> list string) (temp_dir : Path)
  : M unit :=
  fun s => (Ok tt,
            mkState (dirs s)
                    (fun d => match strip_prefix temp_dir d with
                              | Some rel => written rel
                              | None => glob_png s d
                              end)
                    (log s) (procs s) (archives s) (outputs s)).

(** [Path(temp_dir) / f], for the member names covered by [Member]: the
    path lies below [temp_dir]. A name with a leading slash would replace
    [temp_dir], a step to a parent would leave it; such names are outside
    [Member]. *)
Definition join (temp_dir : Path) (f : Member) : Path :=
  temp_dir ++ mdir f ++ [mname f].

Definition extract_zip (zip_file : Path) : M (Path * list Path) :=
  temp_dir <- mkdtemp_dir ;;
  match read_zip env zip_file with
  | Some zip_ref =>
      extractall (extracted_png zip_ref) temp_dir ;;
      let file_list := map (join temp_dir) (namelist zip_ref) in
      logging INFO (ZipExtracted temp_dir) ;;
      ret (temp_dir, file_list)
  | None =>
      let failure := zip_failure env zip_file in
      extractall (zip_left failure) temp_dir ;;
      match zip_error failure with
      | None => raise (RuntimeError "Invalid ZIP file.")
      | Some e => raise e
      end
  end.

Definition pull_cmd : list string := ["docker"; "pull"; "mmunozag/pyhist"].

Definition pull_docker_image : M unit :=
  spawn pull_cmd ;;
  match docker_pull env with
  | Exit0 => logging INFO PulledImage
  | NonZero stderr =>
      logging ERROR (PullFailed stderr) ;;
      raise (RuntimeError ("Failed to pull mmunozag/pyhist: " ++ stderr)%string)
  end.

Definition docker_cmd (image_path : Path) : list string :=
  [ "docker"; "run"; "--rm";
    "--platform"; "linux/amd64";
    "-v"; (to_str (parent image_path) ++ ":/pyhist/images")%string;
    "mmunozag/pyhist";
    "--patch-size"; "512";
    "--content-threshold"; "0.4";
    "--output-downsample"; "4";
    "--borders"; "0000";
    "--corners"; "1010";
    "--percentage-bc"; "1";
    "--k-const"; "1000";
    "--minimum_segmentsize"; "1000";
    "--save-patches";
    "--save-tilecrossed-image";
    "--info"; "verbose";
    "--output"; "/pyhist/images/output";
    ("/pyhist/images/" ++ name image_path)%string ].

(** [output_root / image_path.stem / f"{image_path.stem}_tiles"] *)
Definition expected_tile_folder (image_path : Path) : Path :=
  let parent_dir := parent image_path in
  let output_root := parent_dir ++ ["output"] in
  let image_folder := output_root ++ [stem image_path] in
  image_folder ++ [(stem image_path ++ "_tiles")%string].

(** [output_root.mkdir(exist_ok=True)], first statement of the job: it
    raises when the job meets [MkdirRaised], before anything is logged or
    spawned, and makes the directory, or finds it, otherwise. *)
Definition mkdir_exist_ok (output_root : Path) (met : ToolOutcome) : M unit :=
  match met with
  | MkdirRaised e => raise e
  | _ =>
      fun s => (Ok tt, mkState (dirs s) (glob_png s) (log s) (procs s)
                               (archives s) (add_dir output_root (outputs s)))
  end.

(** One job, taken as a single step at its completion. *)
Definition run_pyhist_docker (image_path : Path) : M Path :=
  let parent_dir := parent image_path in
  let output_root := parent_dir ++ ["output"] in
  mkdir_exist_ok output_root (pyhist env image_path) ;;
  let cmd := docker_cmd image_path in
  logging INFO (RunningDocker cmd) ;;
  spawn cmd ;;
  match pyhist env image_path with
  | ToolDone tiles =>
      write_files (expected_tile_folder image_path) tiles ;;
      logging INFO (DockerOk image_path) ;;
      ret (expected_tile_folder image_path)
  | ToolFailed stderr =>
      logging ERROR (DockerFailed image_path stderr) ;;
      raise (RuntimeError ("PyHIST docker processing failed: " ++ stderr)%string)
  | MkdirRaised e => raise e
  end.

(** The body of the collection loop for one completed future. *)
Definition collect (img_path : Path) (image_tile_map : dict) : M dict :=
  try_except
    (tile_dir <- run_pyhist_docker img_path ;;
     tile_files <- glob tile_dir ;;
     match tile_files with
     | _ :: _ => ret (dict_set (stem img_path) tile_dir image_tile_map)
     | [] => logging WARNING (NoTiles tile_dir) ;; ret image_tile_map
     end)
    (fun e => logging ERROR (ProcessingFailed img_path e) ;; ret image_tile_map).

Fixpoint collect_all (completed : list Path) (image_tile_map : dict) : M dict :=
  match completed with
  | [] => ret image_tile_map
  | img_path :: rest =>
      image_tile_map' <- collect img_path image_tile_map ;;
      collect_all rest image_tile_map'
  end.

(** The worker pool: every image is submitted and the futures are collected
    in the order [as_completed] yields them. A job counts as one step, taken
    when its future is collected: what its container wrote and logged shows
    then. A container writes tiles below the folder of its own image only. *)
Definition dispatch (image_paths : list Path) : M dict :=
  collect_all (as_completed env image_paths) [].

(** The collection of the image paths, first half of [process_files]. *)
Definition collect_image_paths (input_path : Path)
  : M (list Path * option Path) :=
  if is_image input_path then ret ([input_path], None)
  else if is_zip input_path then
    r <- extract_zip input_path ;;
    let '(temp_dir, file_list) := r in
    ret (filter is_image file_list, Some temp_dir)
  else
    (* the message goes on with the expected extensions *)
    raise (ValueError ("Unsupported input file type: " ++ suffix input_path)%string).

Definition process_files (input : Path) : M (dict * option Path) :=
  let input_path := resolve env input in
  r <- collect_image_paths input_path ;;
  let '(image_paths, temp_dir) := r in
  image_tile_map <- dispatch image_paths ;;
  ret (image_tile_map, temp_dir).

(** The member names written for one entry of the mapping. *)
Definition arcnames (s : State) (entry : string * Path) : list string :=
  let '(image_name, tile_dir) := entry in
  map (fun file => (image_name ++ "/" ++ file)%string) (glob_png s tile_dir).

Definition create_output_zip (image_tile_map : dict) (output_zip_path : Path)
  : M unit :=
  if zip_writable env output_zip_path then
    (fun s =>
       (Ok tt,
        mkState (dirs s) (glob_png s) (log s) (procs s)
                (fun a => if PathOps.eqb output_zip_path a
                          then Some (flat_map (arcnames s) image_tile_map)
                          else archives s a)
                (outputs s))) ;;
    logging INFO (OutputZipCreated output_zip_path)
  else raise (OSError output_zip_path).

(** The state once the tree below [temp_dir] is gone. *)
Definition tree_removed (temp_dir : Path) (s : State) : State :=
  mkState (filter (fun d => negb (PathOps.eqb temp_dir d)) (dirs s))
          (fun d => match strip_prefix temp_dir d with
                    | Some _ => []
                    | None => glob_png s d
                    end)
          (log s) (procs s) (archives s)
          (filter (fun d => negb (below temp_dir d)) (outputs s)).

(** The state when the tree below [temp_dir] stays, holding [remains]. *)
Definition tree_kept (remains : Path -> list string) (temp_dir : Path)
           (s : State) : State :=
  mkState (dirs s)
          (fun d => match strip_prefix temp_dir d with
                    | Some rel => remains rel
                    | None => glob_png s d
                    end)
          (log s) (procs s) (archives s) (outputs s).

(** [shutil.rmtree(temp_dir, ignore_errors=True)]: a removal that fails is
    silent. What the script itself has put below the directory it can take
    away; where a job has got as far as its container below it (the
    containers run as root) the removal can fail, and the tree stays with
    what is left of it. *)
Definition rmtree (temp_dir : Path) : M unit :=
  fun s =>
    if existsb (below temp_dir) (outputs s) then
      match rmtree_left env temp_dir with
      | Some remains => (Ok tt, tree_kept remains temp_dir s)
      | None => (Ok tt, tree_removed temp_dir s)
      end
    else (Ok tt, tree_removed temp_dir s).

Definition main (input output_zip : Path) : M unit :=
  pull_docker_image ;;
  r <- process_files input ;;
  let '(image_tile_map, temp_dir) := r in
  create_output_zip image_tile_map output_zip ;;
  match temp_dir with
  | Some d => rmtree d
  | None => ret tt
  end ;;
  logging INFO Completed.

End Script.

(** ** The effect of the collection loop, step by step *)

Section Effect.

Variable env : Env.

(** The log lines of one collected job, by outcome. *)
Definition job_log (p : Path) (s : State) : list (Level * Msg) :=
  match pyhist env p with
  | MkdirRaised e => [(ERROR, ProcessingFailed p e)]
  | ToolFailed stderr =>
      [(INFO, RunningDocker (docker_cmd p));
       (ERROR, DockerFailed p stderr);
       (ERROR, ProcessingFailed p
          (RuntimeError ("PyHIST docker processing failed: " ++ stderr)%string))]
  | ToolDone tiles =>
      (INFO, RunningDocker (docker_cmd p)) ::
      (INFO, DockerOk p) ::
      match merge (glob_png s (expected_tile_folder p)) tiles with
      | [] => [(WARNING, NoTiles (expected_tile_folder p))]
      | _ :: _ => []
      end
  end.

(** The directory listing after one collected job. *)
Definition job_glob (p : Path) (s : State) (d : Path) : list string :=
  match pyhist env p with
  | ToolDone tiles =>
      if PathOps.eqb (expected_tile_folder p) d
      then merge (glob_png s (expected_tile_folder p)) tiles
      else glob_png s d
  | _ => glob_png s d
  end.

(** The mapping after one collected job. *)
Definition job_map (p : Path) (s : State) (m : dict) : dict :=
  match pyhist env p with
  | ToolDone tiles =>
      match merge (glob_png s (expected_tile_folder p)) tiles with
      | [] => m
      | _ :: _ => dict_set (stem p) (expected_tile_folder p) m
      end
  | _ => m
  end.

(** The command line spawned by one job, if it gets as far. *)
Definition job_procs (p : Path) : list (list string) :=
  match pyhist env p with
  | MkdirRaised _ => []
  | _ => [docker_cmd p]
  end.

(** The [output] directories after one job. *)
Definition job_outputs (p : Path) (s : State) : list Path :=
  match pyhist env p with
  | MkdirRaised _ => outputs s
  | _ => add_dir (parent p ++ ["output"]) (outputs s)
  end.

(** The state after one collected job. *)
Definition after_collect (p : Path) (s : State) : State :=
  mkState (dirs s) (job_glob p s) (log s ++ job_log p s)
          (procs s ++ job_procs p) (archives s) (job_outputs p s).

(** The state and the mapping after the jobs of [l], collected in order. *)
Fixpoint jobs_state (l : list Path) (s : State) : State :=
  match l with
  | [] => s
  | p :: l' => jobs_state l' (after_collect p s)
  end.

Fixpoint jobs_map (l : list Path) (s : State) (m : dict) : dict :=
  match l with
  | [] => m
  | p :: l' => jobs_map l' (after_collect p s) (job_map p s m)
  end.

Fixpoint jobs_log (l : list Path) (s : State) : list (Level * Msg) :=
  match l with
  | [] => []
  | p :: l' => job_log p s ++ jobs_log l' (after_collect p s)
  end.

(** The state after a successful [docker pull]. *)
Definition after_pull (s : State) : State :=
  mkState (dirs s) (glob_png s) (log s ++ [(INFO, PulledImage)])
          (procs s ++ [pull_cmd]) (archives s) (outputs s).

(** The state after the extraction of a well-formed archive. *)
Definition after_extract (z : ZipData) (s : State) : State :=
  let t := mkdtemp env (dirs s) in
  mkState (dirs s ++ [t])
          (fun d => match strip_prefix t d with
                    | Some rel => extracted_png z rel
                    | None => glob_png s d
                    end)
          (log s ++ [(INFO, ZipExtracted t)]) (procs s) (archives s)
          (filter (fun d => negb (below t d)) (outputs s)).

(** The state after the output archive has been written. *)
Definition after_packaging (m : dict) (output_zip_path : Path) (s : State)
  : State :=
  mkState (dirs s) (glob_png s)
          (log s ++ [(INFO, OutputZipCreated output_zip_path)]) (procs s)
          (fun a => if PathOps.eqb output_zip_path a
                    then Some (flat_map (arcnames s) m)
                    else archives s a)
          (outputs s).

(** Whether [rmtree] takes the tree below [t] away. *)
Definition workspace_removed (t : Path) (s : State) : bool :=
  negb (existsb (below t) (outputs s))
  || match rmtree_left env t with
     | None => true
     | Some _ => false
     end.

(** The exception of an extraction that fails: [BadZipFile] is turned into
    a [RuntimeError], any other goes through. *)
Definition extract_error (zip_file : Path) : Exn :=
  match zip_error (zip_failure env zip_file) with
  | None => RuntimeError "Invalid ZIP file."
  | Some e => e
  end.

(** The state after an extraction that fails. *)
Definition after_failed_extract (zip_file : Path) (s : State) : State :=
  let t := mkdtemp env (dirs s) in
  mkState (dirs s ++ [t])
          (fun d => match strip_prefix t d with
                    | Some rel => zip_left (zip_failure env zip_file) rel
                    | None => glob_png s d
                    end)
          (log s) (procs s) (archives s)
          (filter (fun d => negb (below t d)) (outputs s)).

(** The image paths found in an archive extracted below [t]. *)
Definition zip_images (z : ZipData) (t : Path) : list Path :=
  filter is_image (map (join t) (namelist z)).

(** The recognised images of an archive and their identifiers. *)
Definition recognised (z : ZipData) : list Member :=
  filter (fun f => is_image [mname f]) (namelist z).

Definition member_stems (z : ZipData) : list string :=
  map (fun f => stem [mname f]) (recognised z).

(** The tile folder of a member, relative to the extraction root. *)
Definition member_tile_folder (f : Member) : Path :=
  mdir f ++ ["output"; stem [mname f]; (stem [mname f] ++ "_tiles")%string].

End Effect.

Arguments job_log : simpl never.
Arguments job_glob : simpl never.
Arguments job_map : simpl never.
Arguments job_procs : simpl never.
Arguments job_outputs : simpl never.

(** ** Concrete worlds, used to run the script *)

Module Demo.

Definition slides : ZipData :=
  mkZip [mkMember [] "a.svs"; mkMember [] "b.svs"; mkMember [] "notes.txt"]
        (fun _ => []).

Definition tool (p : Path) : ToolOutcome :=
  if String.eqb (name p) "a.svs" then ToolDone ["a_000.png"; "a_001.png"]
  else if String.eqb (name p) "empty.tif" then ToolDone []
  else ToolFailed "segmentation failed".

Definition env : Env :=
  mkEnv (fun p => p) Exit0 (fun _ => ["tmp"; "zip_extract_k3x9"])
        (fun p => if PathOps.eqb p ["data"; "slides.zip"] then Some slides
                  else None)
        tool (fun l => rev l) (fun _ => true)
        (fun _ => mkFailure None (fun _ => [])) (fun _ => None).

(** The same world with an output location that cannot be written. *)
Definition env_readonly : Env :=
  mkEnv (resolve env) (docker_pull env) (mkdtemp env) (read_zip env)
        (pyhist env) (as_completed env) (fun _ => false)
        (zip_failure env) (rmtree_left env).

Definition s0 : State :=
  mkState [] (fun _ => []) [] [] (fun _ => None) [].

Definition out : Path := ["data"; "tiles.zip"].

End Demo.

(** Two slides of the same name in two directories of one archive, and two
    worlds that differ only in the order in which the jobs complete. *)
Module Collide.

Definition cases : ZipData :=
  mkZip [mkMember ["x"] "a.svs"; mkMember ["y"] "a.svs"] (fun _ => []).

Definition tool (p : Path) : ToolOutcome :=
  if String.eqb (name (parent p)) "x" then ToolDone ["a_000.png"]
  else ToolDone ["a_000.png"; "a_001.png"].

Definition world (order : list Path -> list Path) : Env :=
  mkEnv (fun p => p) Exit0 (fun _ => ["tmp"; "zip_extract_q7w2"])
        (fun p => if PathOps.eqb p ["data"; "cases.zip"] then Some cases
                  else None)
        tool order (fun _ => true)
        (fun _ => mkFailure None (fun _ => [])) (fun _ => None).

Definition env_fwd : Env := world (fun l => l).

Definition env_bwd : Env := world (fun l => rev l).

End Collide.

(** Further worlds: a Docker daemon that fails every run, an archive
    without any image, a damaged archive, containers whose files cannot be
    removed, and an archive in which no output directory can be made. *)
Module Worlds.

Definition env_failing : Env :=
  mkEnv (resolve Demo.env) Exit0 (mkdtemp Demo.env) (read_zip Demo.env)
        (fun _ => ToolFailed "cannot connect to the Docker daemon")
        (as_completed Demo.env) (fun _ => true)
        (zip_failure Demo.env) (rmtree_left Demo.env).

Definition papers : ZipData :=
  mkZip [mkMember [] "readme.md"; mkMember ["doc"] "notes.txt"] (fun _ => []).

Definition env_papers : Env :=
  mkEnv (fun p => p) Exit0 (fun _ => ["tmp"; "zip_extract_p0d1"])
        (fun _ => Some papers) Demo.tool (fun l => l) (fun _ => true)
        (fun _ => mkFailure None (fun _ => [])) (fun _ => None).


(** The world of [Demo.env] where the files left by the containers cannot
    be removed. *)
Definition env_rootfiles : Env :=
  mkEnv (resolve Demo.env) Exit0 (mkdtemp Demo.env) (read_zip Demo.env)
        (pyhist Demo.env) (as_completed Demo.env) (fun _ => true)
        (zip_failure Demo.env) (fun _ => Some (fun _ => [])).

(** An archive in which the name [output] is taken by a file, next to a
    slide: the job of the slide cannot make its output directory. *)
Definition blocked : ZipData :=
  mkZip [mkMember [] "a.svs"; mkMember [] "output"] (fun _ => []).

Definition env_blocked : Env :=
  mkEnv (fun p => p) Exit0 (fun _ => ["tmp"; "zip_extract_b4k2"])
        (fun _ => Some blocked)
        (fun p => MkdirRaised (FileExistsError (parent p ++ ["output"])))
        (fun l => l) (fun _ => true)
        (fun _ => mkFailure None (fun _ => [])) (fun _ => None).

End Worlds.

(** ** Counting log lines and reading off the result of a run *)

Definition is_error (entry : Level * Msg) : bool :=
  match fst entry with
  | ERROR => true
  | _ => false
  end.

Definition tool_failed (env : Env) (p : Path) : bool :=
  match pyhist env p with
  | ToolFailed _ => true
  | _ => false
  end.

Definition mkdir_raised (env : Env) (p : Path) : bool :=
  match pyhist env p with
  | MkdirRaised _ => true
  | _ => false
  end.

(** What [main] returns, by the exit of the pull, the kind of the input, the
    state of the archive and the output location. *)
Definition expected_result (env : Env) (input output_zip : Path)
  : Result unit :=
  let input_path := resolve env input in
  let packaged :=
    if zip_writable env output_zip then Ok tt
    else Raise (OSError output_zip) in
  match docker_pull env with
  | NonZero stderr =>
      Raise (RuntimeError ("Failed to pull mmunozag/pyhist: " ++ stderr)%string)
  | Exit0 =>
      if is_image input_path then packaged
      else if is_zip input_path then
        match read_zip env input_path with
        | Some _ => packaged
        | None =>
            match zip_error (zip_failure env input_path) with
            | None => Raise (RuntimeError "Invalid ZIP file.")
            | Some e => Raise e
            end
        end
      else Raise (ValueError ("Unsupported input file type: "
                                ++ suffix input_path)%string)
  end.

(** * Properties *)

(** ** Strings and paths *)

Example suffix_svs : suffix ["data"; "slide.SVS"] = ".SVS".
Proof. reflexivity. Qed.

Example suffix_hidden : suffix ["data"; ".png"] = "".
Proof. reflexivity. Qed.

Example suffix_trailing_dot : suffix ["data"; "slide."] = "".
Proof. reflexivity. Qed.

Example stem_two_dots : stem ["data"; "a.ome.tif"] = "a.ome".
Proof. reflexivity. Qed.

Example is_image_upper : is_image ["data"; "slide.SVS"] = true.
Proof. reflexivity. Qed.

Example demo_members :
  archives (snd (main Demo.env ["data"; "slides.zip"] Demo.out Demo.s0)) Demo.out
  = Some ["a/a_000.png"; "a/a_001.png"].
Proof. reflexivity. Qed.

Example demo_log_levels :
  map fst (log (snd (main Demo.env ["data"; "slides.zip"] Demo.out Demo.s0)))
  = [INFO; INFO; INFO; ERROR; ERROR; INFO; INFO; INFO; INFO].
Proof. reflexivity. Qed.

Example demo_dirs :
  dirs (snd (main Demo.env ["data"; "slides.zip"] Demo.out Demo.s0)) = [].
Proof. reflexivity. Qed.

Module StrFacts.
Import Str.

Lemma lower_ascii_dot (c : ascii) :
  Ascii.eqb (lower_ascii c) "." = Ascii.eqb c ".".
Proof.
  destruct c as [[] [] [] [] [] [] [] []]; reflexivity.
Qed.

Lemma lower_ascii_idem (c : ascii) : lower_ascii (lower_ascii c) = lower_ascii c.
Proof.
  destruct c as [[] [] [] [] [] [] [] []]; reflexivity.
Qed.

Lemma lower_idem (s : string) : lower (lower s) = lower s.
Proof.
  induction s as [|c t IH]; simpl; [reflexivity|].
  now rewrite lower_ascii_idem, IH.
Qed.

Lemma length_lower (s : string) : String.length (lower s) = String.length s.
Proof.
  induction s as [|c t IH]; simpl; congruence.
Qed.

Lemma rfind_dot_lower (s : string) : rfind "." (lower s) = rfind "." s.
Proof.
  induction s as [|c t IH]; simpl; [reflexivity|].
  now rewrite IH, lower_ascii_dot.
Qed.

Lemma substring_lower (s : string) :
  forall n m, substring n m (lower s) = lower (substring n m s).
Proof.
  induction s as [|c t IH]; intros [|n] [|m]; simpl; try reflexivity.
  - now rewrite IH.
  - apply IH.
  - apply IH.
Qed.

Lemma cut_lower (n : string) : cut (lower n) = cut n.
Proof.
  unfold cut. now rewrite rfind_dot_lower, length_lower.
Qed.

Lemma suffix_of_lower (n : string) : suffix_of (lower n) = lower (suffix_of n).
Proof.
  unfold suffix_of. rewrite cut_lower, length_lower.
  destruct (cut n); [apply substring_lower | reflexivity].
Qed.

Lemma mem_In (x : string) (l : list string) : mem x l = true <-> In x l.
Proof.
  unfold mem. rewrite existsb_exists. split.
  - intros (y & Hy & E). apply String.eqb_eq in E. now subst.
  - intros H. exists x. split; [assumption | apply String.eqb_refl].
Qed.

Lemma mem_false (x : string) (l : list string) : mem x l = false <-> ~ In x l.
Proof.
  rewrite <- mem_In. destruct (mem x l); split; congruence.
Qed.

End StrFacts.

Module PathFacts.

Lemma eqb_eq (p q : Path) : PathOps.eqb p q = true <-> p = q.
Proof.
  revert q. induction p as [|a p IH]; intros [|b q]; simpl;
    try (split; congruence).
  rewrite andb_true_iff, String.eqb_eq, IH. split.
  - intros [-> ->]. reflexivity.
  - intros E. injection E as -> ->. now split.
Qed.

Lemma eqb_refl (p : Path) : PathOps.eqb p p = true.
Proof. now apply eqb_eq. Qed.

Lemma eqb_neq (p q : Path) : PathOps.eqb p q = false <-> p <> q.
Proof.
  rewrite <- eqb_eq. destruct (PathOps.eqb p q); split; congruence.
Qed.

Lemma strip_prefix_app (base rel : Path) :
  strip_prefix base (base ++ rel) = Some rel.
Proof.
  induction base as [|b base IH]; simpl; [reflexivity|].
  now rewrite String.eqb_refl.
Qed.

Lemma strip_prefix_some (base p rel : Path) :
  strip_prefix base p = Some rel -> p = base ++ rel.
Proof.
  revert p. induction base as [|b base IH]; intros p; simpl.
  - congruence.
  - destruct p as [|c p]; [discriminate|].
    destruct (String.eqb b c) eqn:E; [|discriminate].
    apply String.eqb_eq in E. subst c. intros H. f_equal. now apply IH.
Qed.

Lemma name_snoc (d : Path) (n : string) : name (d ++ [n]) = n.
Proof. unfold name. apply last_last. Qed.

Lemma parent_snoc (d : Path) (n : string) : parent (d ++ [n]) = d.
Proof. unfold parent. apply removelast_last. Qed.

End PathFacts.

(** ** Classification by extension *)

Lemma is_zip_not_image (p : Path) : is_zip p = true -> is_image p = false.
Proof.
  unfold is_zip, is_image. intros H. apply String.eqb_eq in H.
  rewrite H. reflexivity.
Qed.

Lemma is_image_spec (p : Path) :
  is_image p = true <-> In (Str.lower (suffix p)) VALID_EXTENSIONS.
Proof. apply StrFacts.mem_In. Qed.

Lemma lower_suffix_name (p q : Path) :
  Str.lower (name p) = Str.lower (name q) ->
  Str.lower (suffix p) = Str.lower (suffix q).
Proof.
  unfold suffix. intros H.
  now rewrite <- !StrFacts.suffix_of_lower, H.
Qed.

(** C9. Extension recognition ignores case. The test for an image is the
    lower-cased suffix against the recognised set, the test for an archive
    is the lower-cased suffix against [.zip]; so two paths whose file names
    differ only in the case of their letters are classified alike, as image
    and as archive, and so are the paths built from two such members of an
    archive. *)
Theorem extension_recognition_ignores_case :
  forall p q : Path,
    Str.lower (name p) = Str.lower (name q) ->
    (is_image p = true <-> In (Str.lower (suffix p)) VALID_EXTENSIONS) /\
    (is_zip p = true <-> Str.lower (suffix p) = ".zip") /\
    is_image p = is_image q /\
    is_zip p = is_zip q /\
    (forall (temp_dir : Path) (f g : Member),
        Str.lower (mname f) = Str.lower (mname g) ->
        is_image (join temp_dir f) = is_image (join temp_dir g)).
Proof.
  intros p q H. pose proof (lower_suffix_name p q H) as E.
  split; [apply is_image_spec|].
  split; [apply String.eqb_eq|].
  split; [unfold is_image; now rewrite E|].
  split; [unfold is_zip; now rewrite E|].
  intros temp_dir f g Hfg. unfold is_image.
  rewrite (lower_suffix_name (join temp_dir f) (join temp_dir g));
    [reflexivity|].
  unfold join. now rewrite !app_assoc, !PathFacts.name_snoc.
Qed.

Lemma extension_recognition_ignores_case_witness :
  (Str.lower (name ["data"; "slide.SVS"])
   = Str.lower (name ["data"; "slide.svs"])) /\
  (is_image ["data"; "slide.SVS"] = is_image ["data"; "slide.svs"]) /\
  is_image ["data"; "slide.svs"] = true.
Proof.
  split; [reflexivity|]. split; [|reflexivity].
  exact (proj1 (proj2 (proj2
    (extension_recognition_ignores_case
       ["data"; "slide.SVS"] ["data"; "slide.svs"] eq_refl)))).
Defined.

(** ** Single steps of the script *)

Section Steps.

Variable env : Env.

Lemma pull_docker_image_ok (s : State) :
  docker_pull env = Exit0 ->
  pull_docker_image env s = (Ok tt, after_pull s).
Proof.
  intros H. unfold pull_docker_image, bind, spawn, logging. now rewrite H.
Qed.

Lemma pull_docker_image_failed (s : State) (stderr : string) :
  docker_pull env = NonZero stderr ->
  pull_docker_image env s
  = (Raise (RuntimeError ("Failed to pull mmunozag/pyhist: " ++ stderr)%string),
     mkState (dirs s) (glob_png s) (log s ++ [(ERROR, PullFailed stderr)])
             (procs s ++ [pull_cmd]) (archives s) (outputs s)).
Proof.
  intros H. unfold pull_docker_image, bind, spawn, logging, raise.
  now rewrite H.
Qed.

Lemma pull_docker_image_frame (s : State) :
  let s' := snd (pull_docker_image env s) in
  dirs s' = dirs s /\ glob_png s' = glob_png s /\
  procs s' = procs s ++ [pull_cmd] /\ archives s' = archives s.
Proof.
  destruct (docker_pull env) as [|stderr] eqn:H.
  - rewrite (pull_docker_image_ok s H). simpl. auto.
  - rewrite (pull_docker_image_failed s stderr H). simpl. auto.
Qed.

Lemma extract_zip_bad (zip_file : Path) (s : State) :
  read_zip env zip_file = None ->
  extract_zip env zip_file s
  = (Raise (extract_error env zip_file), after_failed_extract env zip_file s).
Proof.
  intros H.
  unfold extract_zip, bind, mkdtemp_dir, extractall, raise, extract_error.
  rewrite H. destruct (zip_error (zip_failure env zip_file)); reflexivity.
Qed.

Lemma extract_zip_good (zip_file : Path) (z : ZipData) (s : State) :
  read_zip env zip_file = Some z ->
  let t := mkdtemp env (dirs s) in
  extract_zip env zip_file s
  = (Ok (t, map (join t) (namelist z)), after_extract env z s).
Proof.
  intros H. unfold extract_zip, bind, mkdtemp_dir, extractall, logging, ret.
  now rewrite H.
Qed.

Lemma run_pyhist_docker_done (p : Path) (tiles : list string) (s : State) :
  pyhist env p = ToolDone tiles ->
  run_pyhist_docker env p s
  = (Ok (expected_tile_folder p),
     mkState (dirs s)
             (fun d' => if PathOps.eqb (expected_tile_folder p) d'
                        then merge (glob_png s (expected_tile_folder p)) tiles
                        else glob_png s d')
             ((log s ++ [(INFO, RunningDocker (docker_cmd p))])
                ++ [(INFO, DockerOk p)])
             (procs s ++ [docker_cmd p]) (archives s)
             (add_dir (parent p ++ ["output"]) (outputs s))).
Proof.
  intros H.
  unfold run_pyhist_docker, mkdir_exist_ok, bind, spawn, logging, write_files,
    ret.
  now rewrite H.
Qed.

Lemma run_pyhist_docker_failed (p : Path) (stderr : string) (s : State) :
  pyhist env p = ToolFailed stderr ->
  run_pyhist_docker env p s
  = (Raise (RuntimeError ("PyHIST docker processing failed: " ++ stderr)%string),
     mkState (dirs s) (glob_png s)
             ((log s ++ [(INFO, RunningDocker (docker_cmd p))])
                ++ [(ERROR, DockerFailed p stderr)])
             (procs s ++ [docker_cmd p]) (archives s)
             (add_dir (parent p ++ ["output"]) (outputs s))).
Proof.
  intros H.
  unfold run_pyhist_docker, mkdir_exist_ok, bind, spawn, logging, raise.
  now rewrite H.
Qed.

(** When the output directory cannot be made the job raises at once: no
    line is logged, no process spawned, nothing written. *)
Lemma run_pyhist_docker_no_output_dir (p : Path) (e : Exn) (s : State) :
  pyhist env p = MkdirRaised e ->
  run_pyhist_docker env p s = (Raise e, s).
Proof.
  intros H. unfold run_pyhist_docker, mkdir_exist_ok, bind, raise.
  now rewrite H.
Qed.

Lemma collect_eq (p : Path) (m : dict) (s : State) :
  collect env p m s
  = (Ok (job_map env p s m), after_collect env p s).
Proof.
  unfold after_collect, collect, try_except, bind at 1, job_map, job_glob,
    job_log, job_procs, job_outputs.
  destruct (pyhist env p) as [stderr|tiles|e] eqn:H.
  - rewrite (run_pyhist_docker_failed p stderr s H).
    unfold bind, logging, ret. simpl.
    rewrite <- !app_assoc. simpl. reflexivity.
  - rewrite (run_pyhist_docker_done p tiles s H).
    unfold bind, glob, logging, ret. simpl.
    rewrite PathFacts.eqb_refl.
    destruct (merge (glob_png s (expected_tile_folder p)) tiles) eqn:G;
      simpl; rewrite <- !app_assoc; simpl; reflexivity.
  - rewrite (run_pyhist_docker_no_output_dir p e s H).
    unfold bind, logging, ret. simpl. rewrite app_nil_r. reflexivity.
Qed.

End Steps.

(** ** Directory contents and the mapping *)

Section Containers.

Lemma add_file_In (x y : string) (l : list string) :
  In y (add_file x l) <-> In y l \/ y = x.
Proof.
  unfold add_file. destruct (Str.mem x l) eqn:E.
  - apply StrFacts.mem_In in E. split; [auto|]. intros [H | ->]; assumption.
  - rewrite in_app_iff. simpl. split.
    + intros [H | [H | []]]; auto.
    + intros [H | ->]; auto.
Qed.

Lemma merge_In (new old : list string) (y : string) :
  In y (merge old new) <-> In y old \/ In y new.
Proof.
  unfold merge. revert old.
  induction new as [|x new IH]; intros old; simpl.
  - tauto.
  - rewrite IH, add_file_In. split.
    + intros [[H | ->] | H]; auto.
    + intros [H | [-> | H]]; auto.
Qed.

Lemma merge_nil (old new : list string) :
  merge old new = [] -> old = [] /\ new = [].
Proof.
  intros H. split.
  - destruct old as [|a old]; [reflexivity|].
    assert (In a (merge (a :: old) new)) as Hin
        by (apply merge_In; left; left; reflexivity).
    rewrite H in Hin. destruct Hin.
  - destruct new as [|a new]; [reflexivity|].
    assert (In a (merge old (a :: new))) as Hin
        by (apply merge_In; right; left; reflexivity).
    rewrite H in Hin. destruct Hin.
Qed.

Lemma dict_set_In (k : string) (v : Path) (m : dict) (k' : string) (v' : Path) :
  In (k', v') (dict_set k v m) -> (k', v') = (k, v) \/ In (k', v') m.
Proof.
  induction m as [|[a b] m IH]; simpl.
  - intros [H | []]. left. now symmetry.
  - destruct (String.eqb k a) eqn:E; simpl.
    + intros [H | H]; [left; now symmetry | right; right; assumption].
    + intros [H | H]; [right; left; assumption|].
      destruct (IH H); [left | right; right]; assumption.
Qed.

Lemma dict_get_set (k : string) (v : Path) (m : dict) (k' : string) :
  dict_get k' (dict_set k v m)
  = if String.eqb k' k then Some v else dict_get k' m.
Proof.
  induction m as [|[a b] m IH]; simpl.
  - reflexivity.
  - destruct (String.eqb k a) eqn:E; simpl.
    + apply String.eqb_eq in E. subst a.
      destruct (String.eqb k' k); reflexivity.
    + destruct (String.eqb k' a) eqn:E'.
      * apply String.eqb_eq in E'. subst a.
        rewrite String.eqb_sym, E. reflexivity.
      * apply IH.
Qed.

Lemma dict_get_In (k : string) (v : Path) (m : dict) :
  dict_get k m = Some v -> In (k, v) m.
Proof.
  induction m as [|[a b] m IH]; simpl; [discriminate|].
  destruct (String.eqb k a) eqn:E.
  - apply String.eqb_eq in E. subst a. intros [= ->]. now left.
  - intros H. right. now apply IH.
Qed.

Lemma dict_In_get (k : string) (v : Path) (m : dict) :
  In (k, v) m -> dict_get k m <> None.
Proof.
  induction m as [|[a b] m IH]; simpl; [tauto|].
  intros [[= -> ->] | H].
  - now rewrite String.eqb_refl.
  - destruct (String.eqb k a); [discriminate | now apply IH].
Qed.

Lemma expected_tile_folder_stem (p q : Path) :
  expected_tile_folder p = expected_tile_folder q -> stem p = stem q.
Proof.
  unfold expected_tile_folder. intros H.
  apply app_inj_tail in H. destruct H as [H _].
  apply app_inj_tail in H. tauto.
Qed.

End Containers.

(** ** The collection loop *)

Section Loop.

Variable env : Env.

Lemma collect_all_eq (l : list Path) :
  forall (m : dict) (s : State),
    collect_all env l m s = (Ok (jobs_map env l s m), jobs_state env l s).
Proof.
  induction l as [|p l IH]; intros m s; simpl.
  - reflexivity.
  - unfold bind. rewrite collect_eq. apply IH.
Qed.

Lemma jobs_state_frame (l : list Path) :
  forall s : State,
    dirs (jobs_state env l s) = dirs s /\
    archives (jobs_state env l s) = archives s /\
    procs (jobs_state env l s) = procs s ++ flat_map (job_procs env) l.
Proof.
  induction l as [|p l IH]; intros s; simpl.
  - now rewrite app_nil_r.
  - destruct (IH (after_collect env p s)) as (Hd & Ha & Hp).
    rewrite Hd, Ha, Hp. simpl. now rewrite <- app_assoc.
Qed.


Lemma job_glob_mono (p : Path) (s : State) (d : Path) (x : string) :
  In x (glob_png s d) -> In x (job_glob env p s d).
Proof.
  unfold job_glob. destruct (pyhist env p) as [|tiles|]; [tauto | | tauto].
  destruct (PathOps.eqb (expected_tile_folder p) d) eqn:E; [|tauto].
  apply PathFacts.eqb_eq in E. subst d. intros H. apply merge_In. now left.
Qed.

Lemma jobs_state_mono (l : list Path) :
  forall (s : State) (d : Path) (x : string),
    In x (glob_png s d) -> In x (glob_png (jobs_state env l s) d).
Proof.
  induction l as [|p l IH]; intros s d x H; simpl; [assumption|].
  apply IH. simpl. now apply job_glob_mono.
Qed.

Lemma nonempty_mono (l : list Path) (s : State) (d : Path) :
  glob_png s d <> [] -> glob_png (jobs_state env l s) d <> [].
Proof.
  destruct (glob_png s d) as [|x g] eqn:E; [congruence|]. intros _ H.
  assert (In x (glob_png (jobs_state env l s) d)) as Hin
      by (apply jobs_state_mono; rewrite E; now left).
  rewrite H in Hin. destruct Hin.
Qed.

End Loop.

Section LoopInvariants.

Variable env : Env.

Local Abbreviation etf := expected_tile_folder.

(** Every entry of the mapping was written by a job whose tool run exited
    with status zero and whose tile folder holds a file. *)
Lemma job_map_entries (q : Path) (s : State) (m : dict) (seen : list Path) :
  (forall k d, In (k, d) m ->
     exists p, In p seen /\ stem p = k /\ d = etf p /\
               (exists tiles, pyhist env p = ToolDone tiles) /\
               glob_png s d <> []) ->
  forall k d, In (k, d) (job_map env q s m) ->
    exists p, In p (q :: seen) /\ stem p = k /\ d = etf p /\
              (exists tiles, pyhist env p = ToolDone tiles) /\
              glob_png (after_collect env q s) d <> [].
Proof.
  intros Hm k d Hin.
  assert (forall k d, In (k, d) m ->
     exists p, In p (q :: seen) /\ stem p = k /\ d = etf p /\
               (exists tiles, pyhist env p = ToolDone tiles) /\
               glob_png (after_collect env q s) d <> []) as Hold.
  { intros k' d' H'. destruct (Hm k' d' H') as (p & Hp & Hk & Hd & Ht & Hg).
    exists p. repeat split; auto; [now right|].
    apply (nonempty_mono env [q] s d' Hg). }
  unfold job_map in Hin.
  destruct (pyhist env q) as [stderr|tiles|e] eqn:Hq;
    [now apply Hold | | now apply Hold].
  destruct (merge (glob_png s (etf q)) tiles) as [|x g] eqn:Hg;
    [now apply Hold|].
  apply dict_set_In in Hin. destruct Hin as [[= -> ->] | Hin];
    [|now apply Hold].
  exists q. repeat split; [now left | now exists tiles |].
  simpl. unfold job_glob. rewrite Hq, PathFacts.eqb_refl, Hg. discriminate.
Qed.

Lemma jobs_map_entries (l : list Path) :
  forall (s : State) (m : dict) (seen : list Path),
    (forall k d, In (k, d) m ->
       exists p, In p seen /\ stem p = k /\ d = etf p /\
                 (exists tiles, pyhist env p = ToolDone tiles) /\
                 glob_png s d <> []) ->
    forall k d, In (k, d) (jobs_map env l s m) ->
      exists p, (In p seen \/ In p l) /\ stem p = k /\ d = etf p /\
                (exists tiles, pyhist env p = ToolDone tiles) /\
                glob_png (jobs_state env l s) d <> [].
Proof.
  induction l as [|q l IH]; intros s m seen Hm k d Hin; simpl in *.
  - destruct (Hm k d Hin) as (p & Hp & H). exists p. tauto.
  - destruct (IH _ _ (q :: seen) (job_map_entries q s m seen Hm) k d Hin)
      as (p & Hp & H).
    exists p. split; [|exact H]. simpl in Hp. intuition auto.
Qed.

(** A job whose tool run exited with status zero and whose tile folder holds
    a file has its identifier in the mapping. *)
Lemma job_map_included (q : Path) (s : State) (m : dict) (seen : list Path) :
  (forall p tiles, In p seen -> pyhist env p = ToolDone tiles ->
     glob_png s (etf p) <> [] -> dict_get (stem p) m <> None) ->
  forall p tiles, In p (q :: seen) -> pyhist env p = ToolDone tiles ->
    glob_png (after_collect env q s) (etf p) <> [] ->
    dict_get (stem p) (job_map env q s m) <> None.
Proof.
  intros Hm p tiles Hin Hp Hg. simpl in Hg. unfold job_glob in Hg.
  unfold job_map.
  destruct (pyhist env q) as [stderr|tq|e] eqn:Hq.
  - destruct Hin as [-> | Hin]; [congruence|]. now apply (Hm p tiles).
  - destruct (PathOps.eqb (etf q) (etf p)) eqn:E.
    + apply PathFacts.eqb_eq in E.
      destruct (merge (glob_png s (etf q)) tq) eqn:G; [congruence|].
      rewrite dict_get_set.
      rewrite (expected_tile_folder_stem _ _ E), String.eqb_refl.
      discriminate.
    + assert (In p seen) as Hs.
      { destruct Hin as [-> | Hin]; [|assumption].
        rewrite PathFacts.eqb_refl in E. discriminate. }
      pose proof (Hm p tiles Hs Hp Hg) as Hget.
      destruct (merge (glob_png s (etf q)) tq); [assumption|].
      rewrite dict_get_set. destruct (String.eqb (stem p) (stem q));
        [discriminate | assumption].
  - destruct Hin as [-> | Hin]; [congruence|]. now apply (Hm p tiles).
Qed.

Lemma jobs_map_included (l : list Path) :
  forall (s : State) (m : dict) (seen : list Path),
    (forall p tiles, In p seen -> pyhist env p = ToolDone tiles ->
       glob_png s (etf p) <> [] -> dict_get (stem p) m <> None) ->
    forall p tiles, In p seen \/ In p l -> pyhist env p = ToolDone tiles ->
      glob_png (jobs_state env l s) (etf p) <> [] ->
      dict_get (stem p) (jobs_map env l s m) <> None.
Proof.
  induction l as [|q l IH]; intros s m seen Hm p tiles Hin Hp Hg; simpl in *.
  - destruct Hin as [Hin | []]. now apply (Hm p tiles).
  - apply (IH _ _ (q :: seen) (job_map_included q s m seen Hm) p tiles);
      auto.
    simpl. intuition auto.
Qed.

End LoopInvariants.

Section LoopLog.

Variable env : Env.

Local Abbreviation etf := expected_tile_folder.

Lemma jobs_state_log (l : list Path) :
  forall s : State, log (jobs_state env l s) = log s ++ jobs_log env l s.
Proof.
  induction l as [|p l IH]; intros s; simpl.
  - now rewrite app_nil_r.
  - rewrite IH. simpl. now rewrite <- app_assoc.
Qed.

(** An ERROR line of a job tells how the job failed. *)
Lemma job_log_error (p : Path) (s : State) (msg : Msg) :
  In (ERROR, msg) (job_log env p s) ->
  (exists stderr,
     pyhist env p = ToolFailed stderr /\
     (msg = DockerFailed p stderr \/
      msg = ProcessingFailed p
              (RuntimeError
                 ("PyHIST docker processing failed: " ++ stderr)%string))) \/
  (exists e, pyhist env p = MkdirRaised e /\ msg = ProcessingFailed p e).
Proof.
  unfold job_log. destruct (pyhist env p) as [stderr|tiles|e] eqn:Hp.
  - intros [H | [H | [H | []]]]; try discriminate H; injection H as H;
      subst msg; left; exists stderr; auto.
  - destruct (merge (glob_png s (etf p)) tiles); simpl; intros H;
      repeat (destruct H as [H | H]; [discriminate H|]); destruct H.
  - intros [H | []]. injection H as <-. right. exists e. auto.
Qed.

Lemma jobs_log_error (l : list Path) :
  forall (s : State) (msg : Msg),
    In (ERROR, msg) (jobs_log env l s) ->
    exists q,
      In q l /\
      ((exists stderr,
          pyhist env q = ToolFailed stderr /\
          (msg = DockerFailed q stderr \/
           msg = ProcessingFailed q
                   (RuntimeError
                      ("PyHIST docker processing failed: " ++ stderr)%string)))
       \/ (exists e, pyhist env q = MkdirRaised e /\
                     msg = ProcessingFailed q e)).
Proof.
  induction l as [|p l IH]; intros s msg H; [destruct H|].
  cbn [jobs_log] in H. apply in_app_or in H. destruct H as [H | H].
  - exists p. split; [now left | exact (job_log_error p s msg H)].
  - destruct (IH _ _ H) as (q & Hq & Hm). exists q. split; [now right | exact Hm].
Qed.

Lemma jobs_log_warning (l : list Path) :
  forall (s : State) (p : Path) (tiles : list string),
    In p l -> pyhist env p = ToolDone tiles ->
    glob_png (jobs_state env l s) (etf p) = [] ->
    In (WARNING, NoTiles (etf p)) (jobs_log env l s).
Proof.
  induction l as [|q l IH]; intros s p tiles Hin Hp Hg; [destruct Hin|].
  cbn [jobs_log jobs_state] in *. apply in_or_app.
  destruct Hin as [-> | Hin].
  - left. unfold job_log. rewrite Hp.
    destruct (merge (glob_png s (etf p)) tiles) as [|x g] eqn:G.
    + simpl. auto.
    + exfalso. revert Hg. apply nonempty_mono. simpl. unfold job_glob.
      rewrite Hp, PathFacts.eqb_refl, G. discriminate.
  - right. now apply (IH _ p tiles).
Qed.

End LoopLog.

(** ** Whole runs *)

Section Runs.

Variable env : Env.

Lemma dispatch_eq (image_paths : list Path) (s : State) :
  dispatch env image_paths s
  = (Ok (jobs_map env (as_completed env image_paths) s []),
     jobs_state env (as_completed env image_paths) s).
Proof. unfold dispatch. apply collect_all_eq. Qed.

Lemma process_files_image (input : Path) (s : State) :
  is_image (resolve env input) = true ->
  let l := as_completed env [resolve env input] in
  process_files env input s
  = (Ok (jobs_map env l s [], None), jobs_state env l s).
Proof.
  intros H l. unfold process_files, collect_image_paths. rewrite H.
  unfold bind, ret. rewrite dispatch_eq. reflexivity.
Qed.

Lemma process_files_zip (input : Path) (z : ZipData) (s : State) :
  is_zip (resolve env input) = true ->
  read_zip env (resolve env input) = Some z ->
  let t := mkdtemp env (dirs s) in
  let sx := after_extract env z s in
  let l := as_completed env (zip_images z t) in
  process_files env input s
  = (Ok (jobs_map env l sx [], Some t), jobs_state env l sx).
Proof.
  intros Hz Hr t sx l. unfold process_files, collect_image_paths.
  rewrite (is_zip_not_image _ Hz), Hz.
  unfold bind. rewrite (extract_zip_good env _ z s Hr).
  unfold ret. rewrite dispatch_eq. reflexivity.
Qed.

Lemma process_files_bad_zip (input : Path) (s : State) :
  is_zip (resolve env input) = true ->
  read_zip env (resolve env input) = None ->
  process_files env input s
  = (Raise (extract_error env (resolve env input)),
     after_failed_extract env (resolve env input) s).
Proof.
  intros Hz Hr. unfold process_files, collect_image_paths.
  rewrite (is_zip_not_image _ Hz), Hz.
  unfold bind. rewrite (extract_zip_bad env _ s Hr). reflexivity.
Qed.

Lemma process_files_unsupported (input : Path) (s : State) :
  is_image (resolve env input) = false ->
  is_zip (resolve env input) = false ->
  process_files env input s
  = (Raise (ValueError ("Unsupported input file type: "
                          ++ suffix (resolve env input))%string), s).
Proof.
  intros Hi Hz. unfold process_files, collect_image_paths.
  rewrite Hi, Hz. reflexivity.
Qed.

Lemma create_output_zip_ok (m : dict) (output_zip_path : Path) (s : State) :
  zip_writable env output_zip_path = true ->
  create_output_zip env m output_zip_path s
  = (Ok tt, after_packaging m output_zip_path s).
Proof.
  intros H. unfold create_output_zip. rewrite H. reflexivity.
Qed.

Lemma create_output_zip_failed (m : dict) (output_zip_path : Path) (s : State) :
  zip_writable env output_zip_path = false ->
  create_output_zip env m output_zip_path s
  = (Raise (OSError output_zip_path), s).
Proof.
  intros H. unfold create_output_zip. rewrite H. reflexivity.
Qed.

Lemma main_after_pull (input output_zip : Path) (s : State) :
  docker_pull env = Exit0 ->
  main env input output_zip s
  = bind (process_files env input)
         (fun r => let '(image_tile_map, temp_dir) := r in
                   create_output_zip env image_tile_map output_zip ;;
                   match temp_dir with
                   | Some d => rmtree env d
                   | None => ret tt
                   end ;;
                   logging INFO Completed)
         (after_pull s).
Proof.
  intros H. unfold main. unfold bind at 1.
  rewrite (pull_docker_image_ok env s H). reflexivity.
Qed.

End Runs.

Section FatalErrors.

Variable env : Env.

Lemma main_pull_failed (input output_zip : Path) (s : State) (stderr : string) :
  docker_pull env = NonZero stderr ->
  main env input output_zip s
  = (Raise (RuntimeError ("Failed to pull mmunozag/pyhist: " ++ stderr)%string),
     mkState (dirs s) (glob_png s) (log s ++ [(ERROR, PullFailed stderr)])
             (procs s ++ [pull_cmd]) (archives s) (outputs s)).
Proof.
  intros H. unfold main. unfold bind at 1.
  rewrite (pull_docker_image_failed env s stderr H). reflexivity.
Qed.

Lemma main_bad_zip (input output_zip : Path) (s : State) :
  docker_pull env = Exit0 ->
  is_zip (resolve env input) = true ->
  read_zip env (resolve env input) = None ->
  main env input output_zip s
  = (Raise (extract_error env (resolve env input)),
     after_failed_extract env (resolve env input) (after_pull s)).
Proof.
  intros Hp Hz Hr. rewrite (main_after_pull env _ _ _ Hp).
  unfold bind at 1. rewrite (process_files_bad_zip env _ _ Hz Hr).
  reflexivity.
Qed.

Lemma main_unsupported (input output_zip : Path) (s : State) :
  docker_pull env = Exit0 ->
  is_image (resolve env input) = false ->
  is_zip (resolve env input) = false ->
  main env input output_zip s
  = (Raise (ValueError ("Unsupported input file type: "
                          ++ suffix (resolve env input))%string),
     after_pull s).
Proof.
  intros Hp Hi Hz. rewrite (main_after_pull env _ _ _ Hp).
  unfold bind at 1. rewrite (process_files_unsupported env _ _ Hi Hz).
  reflexivity.
Qed.

Lemma docker_cmd_not_pull (p : Path) : docker_cmd p <> pull_cmd.
Proof. unfold docker_cmd, pull_cmd. discriminate. Qed.

End FatalErrors.

(** C10. When the extraction of an archive fails, on opening or in the
    middle of [extractall], [extract_zip] raises after it has made its
    temporary directory and does not remove it: the directory is on disk in
    the state the exception leaves behind, holding what had been written by
    then; everything outside it, the log, the processes and the archives
    are as before. The exception is the [RuntimeError] of an invalid archive
    when [zipfile] reports [BadZipFile], and the one [zipfile] raised
    otherwise. *)
Theorem extract_zip_leaves_directory :
  forall (env : Env) (zip_file : Path) (s : State),
    read_zip env zip_file = None ->
    let r := extract_zip env zip_file s in
    let t := mkdtemp env (dirs s) in
    (exists e, fst r = Raise e) /\
    (zip_error (zip_failure env zip_file) = None ->
     fst r = Raise (RuntimeError "Invalid ZIP file.")) /\
    (forall e, zip_error (zip_failure env zip_file) = Some e ->
               fst r = Raise e) /\
    dirs (snd r) = dirs s ++ [t] /\
    In t (dirs (snd r)) /\
    (forall d, strip_prefix t d = None -> glob_png (snd r) d = glob_png s d) /\
    (forall rel,
        glob_png (snd r) (t ++ rel) = zip_left (zip_failure env zip_file) rel) /\
    log (snd r) = log s /\
    procs (snd r) = procs s /\ archives (snd r) = archives s.
Proof.
  intros env zip_file s H r t. subst r. rewrite (extract_zip_bad env _ s H).
  cbn [fst snd after_failed_extract dirs glob_png log procs archives].
  fold t. unfold extract_error.
  split; [eexists; reflexivity|].
  split; [intros ->; reflexivity|].
  split; [intros e ->; reflexivity|].
  split; [reflexivity|].
  split; [apply in_or_app; right; now left|].
  split; [intros d Hd; now rewrite Hd|].
  split; [intros rel; now rewrite PathFacts.strip_prefix_app|].
  repeat split.
Qed.

Lemma extract_zip_leaves_directory_witness :
  read_zip Demo.env ["data"; "broken.zip"] = None /\
  In ["tmp"; "zip_extract_k3x9"]
     (dirs (snd (extract_zip Demo.env ["data"; "broken.zip"] Demo.s0))).
Proof.
  split; [reflexivity|].
  exact (proj1 (proj2 (proj2 (proj2 (proj2
    (extract_zip_leaves_directory Demo.env ["data"; "broken.zip"] Demo.s0
       eq_refl)))))).
Defined.

(** C4. When the container exits with status zero, [run_pyhist_docker]
    returns the tile folder [<parent>/output/<stem>/<stem>_tiles], computed
    from the image path alone; the folder holds what it held before plus what
    the tool wrote, and it is returned also when that is nothing: no listing
    of the folder is consulted. *)
Theorem run_pyhist_docker_tile_folder :
  forall (env : Env) (image_path : Path) (tiles : list string) (s : State),
    pyhist env image_path = ToolDone tiles ->
    let d := parent image_path
               ++ ["output"; stem image_path;
                   (stem image_path ++ "_tiles")%string] in
    let r := run_pyhist_docker env image_path s in
    fst r = Ok d /\
    glob_png (snd r) d = merge (glob_png s d) tiles /\
    (tiles = [] -> glob_png s d = [] -> glob_png (snd r) d = []).
Proof.
  intros env image_path tiles s H d r. subst r.
  rewrite (run_pyhist_docker_done env _ tiles s H).
  assert (expected_tile_folder image_path = d) as E.
  { unfold expected_tile_folder, d. now rewrite <- !app_assoc. }
  rewrite E. simpl. rewrite PathFacts.eqb_refl.
  repeat split. intros -> ->. reflexivity.
Qed.

Lemma run_pyhist_docker_tile_folder_witness :
  pyhist Demo.env ["data"; "empty.tif"] = ToolDone [] /\
  fst (run_pyhist_docker Demo.env ["data"; "empty.tif"] Demo.s0)
  = Ok ["data"; "output"; "empty"; "empty_tiles"].
Proof.
  split; [reflexivity|].
  exact (proj1 (run_pyhist_docker_tile_folder
                  Demo.env ["data"; "empty.tif"] [] Demo.s0 eq_refl)).
Defined.




Section CompletedRuns.

Variable env : Env.

Lemma rmtree_returns (t : Path) (s : State) :
  rmtree env t s = (Ok tt, snd (rmtree env t s)).
Proof.
  unfold rmtree. destruct (existsb (below t) (outputs s)); [|reflexivity].
  destruct (rmtree_left env t); reflexivity.
Qed.

Lemma rmtree_frame (t : Path) (s : State) :
  let s' := snd (rmtree env t s) in
  log s' = log s /\ procs s' = procs s /\ archives s' = archives s.
Proof.
  unfold rmtree. destruct (existsb (below t) (outputs s));
    [destruct (rmtree_left env t)|]; repeat split.
Qed.

Lemma rmtree_dirs (t : Path) (s : State) :
  dirs (snd (rmtree env t s))
  = if workspace_removed env t s
    then filter (fun d => negb (PathOps.eqb t d)) (dirs s)
    else dirs s.
Proof.
  unfold rmtree, workspace_removed.
  destruct (existsb (below t) (outputs s));
    [destruct (rmtree_left env t)|]; reflexivity.
Qed.

Lemma main_zip_eq (input output_zip : Path) (z : ZipData) (s : State) :
  docker_pull env = Exit0 ->
  is_zip (resolve env input) = true ->
  read_zip env (resolve env input) = Some z ->
  zip_writable env output_zip = true ->
  let t := mkdtemp env (dirs s) in
  let sx := after_extract env z (after_pull s) in
  let l := as_completed env (zip_images z t) in
  let sc := after_packaging (jobs_map env l sx []) output_zip
                            (jobs_state env l sx) in
  main env input output_zip s
  = logging INFO Completed (snd (rmtree env t sc)).
Proof.
  intros Hp Hz Hr Hw t sx l sc.
  rewrite (main_after_pull env _ _ _ Hp). unfold bind at 1.
  rewrite (process_files_zip env _ z _ Hz Hr).
  cbn [dirs after_pull]. fold t. fold sx. fold l.
  unfold bind at 1. rewrite (create_output_zip_ok env _ _ _ Hw). fold sc.
  unfold bind. now rewrite rmtree_returns.
Qed.

Lemma main_zip_run (input output_zip : Path) (z : ZipData) (s : State) :
  docker_pull env = Exit0 ->
  is_zip (resolve env input) = true ->
  read_zip env (resolve env input) = Some z ->
  zip_writable env output_zip = true ->
  let t := mkdtemp env (dirs s) in
  let sx := after_extract env z (after_pull s) in
  let l := as_completed env (zip_images z t) in
  let r := main env input output_zip s in
  fst r = Ok tt /\
  dirs (snd r)
  = (if workspace_removed env t (jobs_state env l sx)
     then filter (fun d => negb (PathOps.eqb t d)) (dirs s ++ [t])
     else dirs s ++ [t]) /\
  archives (snd r) output_zip
  = Some (flat_map (arcnames (jobs_state env l sx)) (jobs_map env l sx [])) /\
  procs (snd r) = procs s ++ pull_cmd :: flat_map (job_procs env) l.
Proof.
  intros Hp Hz Hr Hw t sx l r. subst r.
  rewrite (main_zip_eq _ _ z s Hp Hz Hr Hw). fold t. fold sx. fold l.
  set (sc := after_packaging _ _ _).
  destruct (rmtree_frame t sc) as (_ & Hpr & Ha).
  destruct (jobs_state_frame env l sx) as (Hd & _ & Hprocs).
  cbn [logging fst snd dirs archives procs].
  rewrite rmtree_dirs, Ha, Hpr.
  subst sc. cbn [after_packaging dirs archives procs outputs].
  rewrite Hd, Hprocs, PathFacts.eqb_refl.
  unfold workspace_removed, sx.
  cbn [after_packaging after_extract after_pull dirs procs outputs]. fold t.
  rewrite <- app_assoc. repeat split.
Qed.

Lemma main_zip_unwritable_eq (input output_zip : Path) (z : ZipData)
      (s : State) :
  docker_pull env = Exit0 ->
  is_zip (resolve env input) = true ->
  read_zip env (resolve env input) = Some z ->
  zip_writable env output_zip = false ->
  let t := mkdtemp env (dirs s) in
  let l := as_completed env (zip_images z t) in
  main env input output_zip s
  = (Raise (OSError output_zip),
     jobs_state env l (after_extract env z (after_pull s))).
Proof.
  intros Hp Hz Hr Hw t l.
  rewrite (main_after_pull env _ _ _ Hp). unfold bind at 1.
  rewrite (process_files_zip env _ z _ Hz Hr).
  cbn [dirs after_pull]. fold t. fold l.
  unfold bind. now rewrite (create_output_zip_failed env _ _ _ Hw).
Qed.

Lemma main_zip_unwritable (input output_zip : Path) (z : ZipData) (s : State) :
  docker_pull env = Exit0 ->
  is_zip (resolve env input) = true ->
  read_zip env (resolve env input) = Some z ->
  zip_writable env output_zip = false ->
  let r := main env input output_zip s in
  fst r = Raise (OSError output_zip) /\
  dirs (snd r) = dirs s ++ [mkdtemp env (dirs s)].
Proof.
  intros Hp Hz Hr Hw r. subst r.
  rewrite (main_zip_unwritable_eq _ _ z s Hp Hz Hr Hw).
  cbn [fst snd]. split; [reflexivity|].
  destruct (jobs_state_frame env
              (as_completed env (zip_images z (mkdtemp env (dirs s))))
              (after_extract env z (after_pull s))) as (Hd & _).
  rewrite Hd. reflexivity.
Qed.

Lemma main_image_eq (input output_zip : Path) (s : State) :
  docker_pull env = Exit0 ->
  is_image (resolve env input) = true ->
  zip_writable env output_zip = true ->
  let l := as_completed env [resolve env input] in
  let sp := after_pull s in
  main env input output_zip s
  = logging INFO Completed
      (after_packaging (jobs_map env l sp []) output_zip (jobs_state env l sp)).
Proof.
  intros Hp Hi Hw l sp.
  rewrite (main_after_pull env _ _ _ Hp). unfold bind at 1.
  rewrite (process_files_image env _ _ Hi). fold l. fold sp.
  unfold bind. now rewrite (create_output_zip_ok env _ _ _ Hw).
Qed.

Lemma main_image_run (input output_zip : Path) (s : State) :
  docker_pull env = Exit0 ->
  is_image (resolve env input) = true ->
  zip_writable env output_zip = true ->
  let l := as_completed env [resolve env input] in
  let sp := after_pull s in
  let r := main env input output_zip s in
  fst r = Ok tt /\
  dirs (snd r) = dirs s /\
  archives (snd r) output_zip
  = Some (flat_map (arcnames (jobs_state env l sp)) (jobs_map env l sp [])) /\
  glob_png (snd r) = glob_png (jobs_state env l sp).
Proof.
  intros Hp Hi Hw l sp r. subst r.
  rewrite (main_image_eq _ _ s Hp Hi Hw). fold l. fold sp.
  destruct (jobs_state_frame env l sp) as (Hd & _).
  cbn [logging fst snd after_packaging dirs archives glob_png].
  rewrite Hd, PathFacts.eqb_refl. repeat split.
Qed.

End CompletedRuns.

(** C2, as stated, fails: on an input that is neither image nor archive the
    run raises, yet [docker pull] has been spawned before the rejection. *)
Lemma unsupported_input_spawns_pull :
  is_image (resolve Demo.env ["data"; "notes.txt"]) = false /\
  is_zip (resolve Demo.env ["data"; "notes.txt"]) = false /\
  fst (main Demo.env ["data"; "notes.txt"] Demo.out Demo.s0)
  = Raise (ValueError "Unsupported input file type: .txt") /\
  procs (snd (main Demo.env ["data"; "notes.txt"] Demo.out Demo.s0))
  = [["docker"; "pull"; "mmunozag/pyhist"]] /\
  procs (snd (main Demo.env ["data"; "notes.txt"] Demo.out Demo.s0))
  <> procs Demo.s0.
Proof.
  vm_compute. repeat split. discriminate.
Qed.

(** C2, amended. On an input whose resolved path has neither a recognised
    image suffix nor the archive suffix the run raises; [process_files]
    rejects it at once, leaving the state as it found it; no container is
    started for any image, no directory is made and no archive written. The
    one process of the run is [docker pull], spawned by [main] before the
    input is looked at; when the pull goes through, the error of the run is
    the rejection. *)
Theorem unsupported_input_rejected :
  forall (env : Env) (input output_zip : Path) (s : State),
    is_image (resolve env input) = false ->
    is_zip (resolve env input) = false ->
    let r := main env input output_zip s in
    (exists e, fst r = Raise e) /\
    process_files env input s
    = (Raise (ValueError ("Unsupported input file type: "
                            ++ suffix (resolve env input))%string), s) /\
    procs (snd r) = procs s ++ [pull_cmd] /\
    (forall p, In (docker_cmd p) (procs (snd r)) -> In (docker_cmd p) (procs s)) /\
    dirs (snd r) = dirs s /\
    archives (snd r) = archives s /\
    (docker_pull env = Exit0 ->
     fst r = Raise (ValueError ("Unsupported input file type: "
                                  ++ suffix (resolve env input))%string)).
Proof.
  intros env input output_zip s Hi Hz r. subst r.
  assert (procs (snd (main env input output_zip s)) = procs s ++ [pull_cmd]
          /\ dirs (snd (main env input output_zip s)) = dirs s
          /\ archives (snd (main env input output_zip s)) = archives s
          /\ exists e, fst (main env input output_zip s) = Raise e)
    as (Hprocs & Hdirs & Harch & Hraise).
  { destruct (docker_pull env) as [|stderr] eqn:Hp.
    - rewrite (main_unsupported env _ _ _ Hp Hi Hz). simpl. eauto.
    - rewrite (main_pull_failed env _ _ _ _ Hp). simpl. eauto. }
  repeat split; auto.
  - apply process_files_unsupported; assumption.
  - intros p. rewrite Hprocs, in_app_iff. intros [H | [H | []]]; auto.
    symmetry in H. now apply docker_cmd_not_pull in H.
  - intros Hp. now rewrite (main_unsupported env _ _ _ Hp Hi Hz).
Qed.

Lemma unsupported_input_rejected_witness :
  is_image (resolve Demo.env ["data"; "notes.txt"]) = false /\
  is_zip (resolve Demo.env ["data"; "notes.txt"]) = false /\
  procs (snd (main Demo.env ["data"; "notes.txt"] Demo.out Demo.s0))
  = procs Demo.s0 ++ [pull_cmd].
Proof.
  split; [reflexivity|]. split; [reflexivity|].
  exact (proj1 (proj2 (proj2
    (unsupported_input_rejected Demo.env ["data"; "notes.txt"] Demo.out
       Demo.s0 eq_refl eq_refl)))).
Defined.

(** C3, as stated, fails: when the output archive cannot be written the run
    ends with the extraction directory still on disk. *)
Lemma workspace_left_when_packaging_fails :
  is_zip (resolve Demo.env_readonly ["data"; "slides.zip"]) = true /\
  fst (main Demo.env_readonly ["data"; "slides.zip"] Demo.out Demo.s0)
  = Raise (OSError Demo.out) /\
  In (mkdtemp Demo.env_readonly (dirs Demo.s0))
     (dirs (snd (main Demo.env_readonly ["data"; "slides.zip"] Demo.out
                   Demo.s0))).
Proof.
  vm_compute. repeat split. left. reflexivity.
Qed.

Section OutputDirectories.

Variable env : Env.

Lemma add_dir_In (d : Path) (l : list Path) (x : Path) :
  In x (add_dir d l) <-> In x l \/ x = d.
Proof.
  unfold add_dir. destruct (existsb (PathOps.eqb d) l) eqn:E.
  - apply existsb_exists in E. destruct E as (y & Hy & E).
    apply PathFacts.eqb_eq in E. subst y. split; [auto|].
    intros [H | ->]; assumption.
  - rewrite in_app_iff. simpl. split.
    + intros [H | [H | []]]; auto.
    + intros [H | ->]; auto.
Qed.

Lemma job_outputs_In (p : Path) (s : State) (x : Path) :
  In x (job_outputs env p s) <->
  In x (outputs s) \/ (mkdir_raised env p = false /\ x = parent p ++ ["output"]).
Proof.
  unfold job_outputs, mkdir_raised.
  destruct (pyhist env p) as [stderr|tiles|e]; try rewrite add_dir_In;
    split; intros H; try tauto.
  - destruct H as [H | [H _]]; [assumption | discriminate H].
Qed.

(** The output directories on disk after the loop: those that were there
    and those of the jobs that got as far as their container. *)
Lemma jobs_outputs_In (l : list Path) :
  forall (s : State) (x : Path),
    In x (outputs (jobs_state env l s)) <->
    In x (outputs s) \/
    exists p, In p l /\ mkdir_raised env p = false /\
              x = parent p ++ ["output"].
Proof.
  induction l as [|p l IH]; intros s x; cbn [jobs_state].
  - split; [auto|]. intros [H | (q & [] & _)]. assumption.
  - rewrite IH. cbn [outputs after_collect]. rewrite job_outputs_In. split.
    + intros [[H | [Hm Hx]] | (q & Hq & Hm & Hx)].
      * now left.
      * right. exists p. simpl. auto.
      * right. exists q. simpl. auto.
    + intros [H | (q & [<- | Hq] & Hm & Hx)].
      * left. now left.
      * left. right. auto.
      * right. exists q. auto.
Qed.

Lemma below_image_output (z : ZipData) (t p : Path) :
  In p (zip_images z t) -> below t (parent p ++ ["output"]) = true.
Proof.
  unfold zip_images. rewrite filter_In, in_map_iff.
  intros ((f & <- & _) & _). unfold join, below.
  rewrite (app_assoc t), PathFacts.parent_snoc, <- app_assoc.
  now rewrite PathFacts.strip_prefix_app.
Qed.

Lemma no_stale_output (t : Path) (l : list Path) :
  existsb (below t) (filter (fun d => negb (below t d)) l) = false.
Proof.
  destruct (existsb _ _) eqn:E; [|reflexivity].
  apply existsb_exists in E. destruct E as (x & Hx & E).
  apply filter_In in Hx. destruct Hx as [_ Hx]. rewrite E in Hx.
  discriminate Hx.
Qed.

(** Whether a job of the archive has left an [output] directory below the
    extraction directory: exactly when one got as far as its container. *)
Lemma container_below_workspace (z : ZipData) (s : State) :
  let t := mkdtemp env (dirs s) in
  let l := as_completed env (zip_images z t) in
  (forall l', Permutation (as_completed env l') l') ->
  existsb (below t) (outputs (jobs_state env l (after_extract env z s))) = true
  <-> exists p, In p (zip_images z t) /\ mkdir_raised env p = false.
Proof.
  intros t l Hperm. rewrite existsb_exists. split.
  - intros (x & Hx & Hb). apply jobs_outputs_In in Hx.
    destruct Hx as [Hx | (p & Hp & Hm & _)].
    + exfalso. cbn [outputs after_extract] in Hx. fold t in Hx.
      apply filter_In in Hx. destruct Hx as [_ Hx]. rewrite Hb in Hx.
      discriminate Hx.
    + exists p. split; [|assumption].
      apply (Permutation_in _ (Hperm _) Hp).
  - intros (p & Hp & Hm). exists (parent p ++ ["output"]). split.
    + apply jobs_outputs_In. right. exists p. repeat split; auto.
      apply (Permutation_in _ (Permutation_sym (Hperm _)) Hp).
    + now apply (below_image_output z).
Qed.

End OutputDirectories.

(** A second way in which C3 fails: packaging completes, [rmtree] cannot
    remove what the containers have left, says nothing, and the run returns
    normally with the extraction directory on disk. *)
Example workspace_left_when_removal_fails :
  fst (main Worlds.env_rootfiles ["data"; "slides.zip"] Demo.out Demo.s0)
  = Ok tt /\
  In (mkdtemp Worlds.env_rootfiles (dirs Demo.s0))
     (dirs (snd (main Worlds.env_rootfiles ["data"; "slides.zip"] Demo.out
                   Demo.s0))).
Proof.
  vm_compute. split; [reflexivity | left; reflexivity].
Qed.

(** C3, amended. In a run that extracts an archive and completes packaging,
    [rmtree] is reached whatever became of the single jobs, and the run
    returns normally. The extraction directory is then gone when the removal
    goes through, which it does at least when no job got as far as its
    container; [rmtree] is called with [ignore_errors=True], so when it
    cannot remove what the containers left, the directory stays and nothing
    is raised. When the output archive cannot be written the run raises
    before [rmtree] and the directory stays. *)
Theorem workspace_removed_after_packaging :
  forall (env : Env) (input output_zip : Path) (z : ZipData) (s : State),
    (forall l, Permutation (as_completed env l) l) ->
    docker_pull env = Exit0 ->
    is_zip (resolve env input) = true ->
    read_zip env (resolve env input) = Some z ->
    let t := mkdtemp env (dirs s) in
    let r := main env input output_zip s in
    let gone :=
      ~ In t (dirs (snd r)) /\
      forall d, In d (dirs (snd r)) <-> In d (dirs s) /\ d <> t in
    (zip_writable env output_zip = true ->
     fst r = Ok tt /\
     (rmtree_left env t = None -> gone) /\
     ((forall p, In p (zip_images z t) -> mkdir_raised env p = true) -> gone) /\
     (rmtree_left env t <> None ->
      (exists p, In p (zip_images z t) /\ mkdir_raised env p = false) ->
      In t (dirs (snd r)))) /\
    (zip_writable env output_zip = false ->
     fst r = Raise (OSError output_zip) /\ In t (dirs (snd r))).
Proof.
  intros env input output_zip z s Hperm Hp Hz Hr t r gone. subst r.
  split; intros Hw.
  - destruct (main_zip_run env _ _ z s Hp Hz Hr Hw) as (Hok & Hd & _).
    fold t in Hd.
    pose proof (container_below_workspace env z (after_pull s) Hperm) as Hc.
    cbn [dirs after_pull] in Hc. fold t in Hc.
    assert (workspace_removed env t
              (jobs_state env (as_completed env (zip_images z t))
                 (after_extract env z (after_pull s))) = true -> gone)
      as Hgone.
    { intros E. rewrite E in Hd.
      assert (forall d, In d (dirs (snd (main env input output_zip s)))
                        <-> In d (dirs s) /\ d <> t) as Hiff.
      { intros d. rewrite Hd, filter_In, in_app_iff, negb_true_iff.
        rewrite PathFacts.eqb_neq. simpl. split.
        - intros [[H | [H | []]] Hn]; [now split | congruence].
        - intros [H Hn]. split; [now left | congruence]. }
      split; [|exact Hiff]. intros H. apply Hiff in H. now destruct H. }
    split; [assumption|]. split; [|split].
    + intros E. apply Hgone. unfold workspace_removed. rewrite E.
      apply orb_true_r.
    + intros Hall. apply Hgone. unfold workspace_removed.
      destruct (existsb _ _) eqn:E; [|reflexivity].
      destruct (proj1 Hc eq_refl) as (p & Hin & Hm).
      rewrite (Hall p Hin) in Hm. discriminate Hm.
    + intros Hleft Hex. apply Hc in Hex.
      unfold workspace_removed in Hd. rewrite Hex in Hd.
      destruct (rmtree_left env t); [|congruence]. simpl in Hd.
      rewrite Hd. apply in_or_app. right. now left.
  - destruct (main_zip_unwritable env _ _ z s Hp Hz Hr Hw) as (Hraise & Hd).
    split; [assumption|]. rewrite Hd. apply in_or_app. right. now left.
Qed.

Lemma workspace_removed_after_packaging_witness :
  (forall l, Permutation (as_completed Demo.env l) l) /\
  docker_pull Demo.env = Exit0 /\
  is_zip (resolve Demo.env ["data"; "slides.zip"]) = true /\
  read_zip Demo.env (resolve Demo.env ["data"; "slides.zip"])
  = Some Demo.slides /\
  zip_writable Demo.env Demo.out = true /\
  rmtree_left Demo.env (mkdtemp Demo.env (dirs Demo.s0)) = None /\
  ~ In (mkdtemp Demo.env (dirs Demo.s0))
       (dirs (snd (main Demo.env ["data"; "slides.zip"] Demo.out Demo.s0))).
Proof.
  split; [intros l; apply Permutation_sym, Permutation_rev|].
  repeat (split; [reflexivity|]).
  exact (proj1 (proj1 (proj2 (proj1
    (workspace_removed_after_packaging Demo.env ["data"; "slides.zip"]
       Demo.out Demo.slides Demo.s0
       (fun l => Permutation_sym (Permutation_rev l))
       eq_refl eq_refl eq_refl) eq_refl)) eq_refl)).
Defined.

(** ** Failure isolation *)



Lemma demo_completion_order :
  forall l : list Path, Permutation (as_completed Demo.env l) l.
Proof. intros l. apply Permutation_sym, Permutation_rev. Qed.


(** C6. A job whose tool run exits with status zero while its tile folder
    holds no file leaves the mapping as it was and is logged at WARNING
    level: its collection step returns the mapping unchanged after the lines
    INFO, INFO, WARNING; over the whole batch no entry of the mapping points
    to its folder, its identifier is absent when no other image shares it,
    the warning is in the log and no ERROR line is about it. *)
Theorem empty_tile_folder_is_warning :
  forall (env : Env) (image_paths : list Path) (p : Path)
         (tiles : list string) (s : State),
    (forall l, Permutation (as_completed env l) l) ->
    In p image_paths ->
    pyhist env p = ToolDone tiles ->
    let r := dispatch env image_paths s in
    let d := expected_tile_folder p in
    glob_png (snd r) d = [] ->
    (forall (m0 : dict) (s0 : State),
        merge (glob_png s0 d) tiles = [] ->
        fst (collect env p m0 s0) = Ok m0 /\
        log (snd (collect env p m0 s0))
        = log s0 ++ [(INFO, RunningDocker (docker_cmd p));
                     (INFO, DockerOk p);
                     (WARNING, NoTiles d)]) /\
    exists (m : dict) (new : list (Level * Msg)),
      fst r = Ok m /\
      (forall k d', In (k, d') m -> d' <> d) /\
      ((forall q, In q image_paths -> stem q = stem p -> q = p) ->
       dict_get (stem p) m = None) /\
      log (snd r) = log s ++ new /\
      In (WARNING, NoTiles d) new /\
      (forall msg, In (ERROR, msg) new ->
         forall e stderr,
           msg <> ProcessingFailed p e /\ msg <> DockerFailed p stderr).
Proof.
  intros env image_paths p tiles s Hperm Hp Ht r d Hempty. subst r d.
  rewrite dispatch_eq in *. cbn [fst snd] in *.
  set (l := as_completed env image_paths) in *.
  assert (forall q, In q l <-> In q image_paths) as Hl.
  { intros q. split; apply Permutation_in;
      [apply Hperm | apply Permutation_sym, Hperm]. }
  assert (forall k d', In (k, d') (jobs_map env l s []) ->
            exists q, In q image_paths /\ stem q = k /\
                      d' = expected_tile_folder q /\
                      glob_png (jobs_state env l s) d' <> []) as Hentries.
  { intros k d' Hin.
    destruct (jobs_map_entries env l s [] [] (fun _ _ H => match H with end)
                k d' Hin) as (q & [[] | Hq] & Hk & Hd & _ & Hg).
    exists q. repeat split; auto. now apply Hl. }
  split.
  - intros m0 s0 Hm. rewrite collect_eq. cbn [fst snd after_collect log].
    unfold job_map, job_log. rewrite Ht, Hm. split; reflexivity.
  - exists (jobs_map env l s []), (jobs_log env l s). repeat split.
    + intros k d' Hin ->. destruct (Hentries _ _ Hin) as (q & _ & _ & _ & Hg).
      now apply Hg.
    + intros Huniq.
      destruct (dict_get (stem p) (jobs_map env l s [])) as [d'|] eqn:G;
        [|reflexivity].
      exfalso. apply dict_get_In in G.
      destruct (Hentries _ _ G) as (q & Hq & Hst & -> & Hg).
      rewrite (Huniq q Hq Hst) in Hg. now apply Hg.
    + apply jobs_state_log.
    + apply (jobs_log_warning env l s p tiles); auto. now apply Hl.
    + intros ->.
      destruct (jobs_log_error env l s _ H)
        as (q & _ & [(stderr' & Hq & [E | E]) | (e' & Hq & E)]);
        [discriminate E | |]; injection E as <- _; congruence.
    + intros ->.
      destruct (jobs_log_error env l s _ H)
        as (q & _ & [(stderr' & Hq & [E | E]) | (e' & Hq & E)]);
        [| discriminate E | discriminate E]. injection E as <- _. congruence.
Qed.

Lemma empty_tile_folder_is_warning_witness :
  (forall l, Permutation (as_completed Demo.env l) l) /\
  In ["data"; "empty.tif"] [["data"; "a.svs"]; ["data"; "empty.tif"]] /\
  pyhist Demo.env ["data"; "empty.tif"] = ToolDone [] /\
  glob_png
    (snd (dispatch Demo.env [["data"; "a.svs"]; ["data"; "empty.tif"]] Demo.s0))
    (expected_tile_folder ["data"; "empty.tif"]) = [] /\
  exists m,
    fst (dispatch Demo.env [["data"; "a.svs"]; ["data"; "empty.tif"]] Demo.s0)
    = Ok m /\
    forall k d', In (k, d') m -> d' <> expected_tile_folder ["data"; "empty.tif"].
Proof.
  split; [exact demo_completion_order|].
  split; [right; left; reflexivity|].
  split; [reflexivity|]. split; [reflexivity|].
  destruct (empty_tile_folder_is_warning Demo.env
              [["data"; "a.svs"]; ["data"; "empty.tif"]]
              ["data"; "empty.tif"] [] Demo.s0
              demo_completion_order (or_intror (or_introl eq_refl))
              eq_refl eq_refl) as (_ & m & new & Hm & Hd & _).
  exists m. split; assumption.
Defined.

(** ** Membership of the output archive *)

Lemma NoDup_map_inj {A B} (h : A -> B) (l : list A) (a b : A) :
  NoDup (map h l) -> In a l -> In b l -> h a = h b -> a = b.
Proof.
  induction l as [|c l IH]; simpl; [tauto|].
  intros Hnd Ha Hb E. inversion Hnd as [|? ? Hnotin Hnd']; subst.
  destruct Ha as [-> | Ha], Hb as [-> | Hb]; auto.
  - exfalso. apply Hnotin. rewrite E. now apply in_map.
  - exfalso. apply Hnotin. rewrite <- E. now apply in_map.
Qed.

Section Membership.

Variable env : Env.

Local Abbreviation etf := expected_tile_folder.

Lemma job_glob_In (q : Path) (s : State) (d : Path) (x : string) :
  In x (job_glob env q s d) <->
  In x (glob_png s d) \/
  exists tiles, pyhist env q = ToolDone tiles /\ etf q = d /\ In x tiles.
Proof.
  unfold job_glob. destruct (pyhist env q) as [stderr|tiles|e] eqn:Hq.
  - split; [auto|]. intros [H | (tiles & Ht & _)]; [assumption | discriminate].
  - destruct (PathOps.eqb (etf q) d) eqn:E.
    + apply PathFacts.eqb_eq in E. subst d. rewrite merge_In. split.
      * intros [H | H]; [auto|]. right. exists tiles. auto.
      * intros [H | (t' & [= <-] & _ & H)]; auto.
    + apply PathFacts.eqb_neq in E. split; [auto|].
      intros [H | (t' & _ & E' & _)]; [assumption | contradiction].
  - split; [auto|]. intros [H | (tiles & Ht & _)]; [assumption | discriminate].
Qed.

(** After the loop a folder holds what it held before and what the jobs
    that own it have written. *)
Lemma jobs_glob_In (l : list Path) :
  forall (s : State) (d : Path) (x : string),
    In x (glob_png (jobs_state env l s) d) <->
    In x (glob_png s d) \/
    exists q tiles,
      In q l /\ pyhist env q = ToolDone tiles /\ etf q = d /\ In x tiles.
Proof.
  induction l as [|p l IH]; intros s d x; cbn [jobs_state].
  - split; [auto|]. intros [H | (q & t & [] & _)]. assumption.
  - rewrite IH. cbn [glob_png after_collect]. rewrite job_glob_In. split.
    + intros [[H | (t & Ht & E & Hx)] | (q & t & Hq & Ht & E & Hx)].
      * now left.
      * right. exists p, t. simpl. auto.
      * right. exists q, t. simpl. auto.
    + intros [H | (q & t & [<- | Hq] & Ht & E & Hx)].
      * left. now left.
      * left. right. exists t. auto.
      * right. exists q, t. auto.
Qed.

(** With pairwise distinct identifiers the members of the archive are the
    tiles of the jobs whose tool run went through, whatever the order of
    completion. *)
Lemma members_In (l : list Path) (s : State) (n : string) :
  (forall p q, In p l -> In q l -> stem p = stem q -> p = q) ->
  In n (flat_map (arcnames (jobs_state env l s)) (jobs_map env l s [])) <->
  exists p tiles x,
    In p l /\ pyhist env p = ToolDone tiles /\
    (In x (glob_png s (etf p)) \/ In x tiles) /\
    n = (stem p ++ "/" ++ x)%string.
Proof.
  intros Huniq.
  assert (forall k d, In (k, d) (jobs_map env l s []) ->
            exists p, In p l /\ stem p = k /\ d = etf p /\
                      exists tiles, pyhist env p = ToolDone tiles) as Hentries.
  { intros k d Hin.
    destruct (jobs_map_entries env l s [] [] (fun _ _ H => match H with end)
                k d Hin) as (p & [[] | Hp] & Hk & Hd & Ht & _).
    exists p. auto. }
  split.
  - intros Hn. apply in_flat_map in Hn. destruct Hn as ([k d] & Hkd & Hn).
    simpl in Hn. apply in_map_iff in Hn. destruct Hn as (x & <- & Hx).
    destruct (Hentries _ _ Hkd) as (p & Hp & <- & -> & tiles & Ht).
    exists p, tiles, x. repeat split; auto.
    apply jobs_glob_In in Hx.
    destruct Hx as [Hx | (q & tq & Hq & Htq & E & Hx)]; [now left|].
    right. apply expected_tile_folder_stem in E.
    rewrite (Huniq q p Hq Hp E) in Htq. congruence.
  - intros (p & tiles & x & Hp & Ht & Hx & ->).
    assert (In x (glob_png (jobs_state env l s) (etf p))) as Hx'.
    { apply jobs_glob_In. destruct Hx as [Hx | Hx]; [now left|].
      right. exists p, tiles. auto. }
    assert (dict_get (stem p) (jobs_map env l s []) <> None) as Hget.
    { apply (jobs_map_included env l s [] []
               (fun _ _ H => match H with end) p tiles); auto.
      intros E. rewrite E in Hx'. destruct Hx'. }
    destruct (dict_get (stem p) (jobs_map env l s [])) as [d|] eqn:G;
      [|congruence].
    apply dict_get_In in G.
    destruct (Hentries _ _ G) as (q & Hq & Hst & -> & _).
    rewrite (Huniq q p Hq Hp Hst) in G.
    apply in_flat_map. exists (stem p, etf p). split; [assumption|].
    unfold arcnames. apply in_map_iff. exists x. split; [reflexivity|].
    assumption.
Qed.

End Membership.

Section ArchiveImages.

Local Abbreviation etf := expected_tile_folder.

Lemma name_join (t : Path) (f : Member) : name (join t f) = mname f.
Proof. unfold join. rewrite app_assoc. apply PathFacts.name_snoc. Qed.

Lemma is_image_join (t : Path) (f : Member) :
  is_image (join t f) = is_image [mname f].
Proof. unfold is_image, suffix. now rewrite name_join. Qed.

Lemma stem_join (t : Path) (f : Member) : stem (join t f) = stem [mname f].
Proof. unfold stem. now rewrite name_join. Qed.

Lemma etf_join (t : Path) (f : Member) :
  etf (join t f) = t ++ member_tile_folder f.
Proof.
  unfold expected_tile_folder, member_tile_folder. rewrite stem_join.
  unfold join at 1. rewrite app_assoc, PathFacts.parent_snoc.
  now rewrite <- !app_assoc.
Qed.

Lemma zip_images_In (z : ZipData) (t p : Path) :
  In p (zip_images z t) <-> exists f, In f (recognised z) /\ p = join t f.
Proof.
  unfold zip_images, recognised. rewrite filter_In, in_map_iff. split.
  - intros ((f & <- & Hf) & Hi). exists f. split; [|reflexivity].
    apply filter_In. split; [assumption|]. now rewrite <- (is_image_join t).
  - intros (f & Hf & ->). apply filter_In in Hf. destruct Hf as [Hf Hi].
    split; [now exists f|]. now rewrite is_image_join.
Qed.

Lemma zip_images_unique (z : ZipData) (t p q : Path) :
  NoDup (member_stems z) ->
  In p (zip_images z t) -> In q (zip_images z t) -> stem p = stem q -> p = q.
Proof.
  intros Hnd Hp Hq E.
  apply zip_images_In in Hp. destruct Hp as (f & Hf & ->).
  apply zip_images_In in Hq. destruct Hq as (g & Hg & ->).
  rewrite !stem_join in E.
  now rewrite (NoDup_map_inj (fun f => stem [mname f]) _ f g Hnd Hf Hg E).
Qed.

End ArchiveImages.

Section RunMembers.

Variable env : Env.

Hypothesis completion_order : forall l, Permutation (as_completed env l) l.

Local Abbreviation etf := expected_tile_folder.

Lemma as_completed_In (l : list Path) (p : Path) :
  In p (as_completed env l) <-> In p l.
Proof.
  split; apply Permutation_in;
    [apply completion_order | apply Permutation_sym, completion_order].
Qed.

Lemma zip_run_members (input output_zip : Path) (z : ZipData) (s : State) :
  docker_pull env = Exit0 ->
  is_zip (resolve env input) = true ->
  read_zip env (resolve env input) = Some z ->
  zip_writable env output_zip = true ->
  NoDup (member_stems z) ->
  let t := mkdtemp env (dirs s) in
  let r := main env input output_zip s in
  exists names,
    fst r = Ok tt /\ archives (snd r) output_zip = Some names /\
    forall n, In n names <->
      exists f tiles x,
        In f (recognised z) /\ pyhist env (join t f) = ToolDone tiles /\
        (In x (extracted_png z (member_tile_folder f)) \/ In x tiles) /\
        n = (stem [mname f] ++ "/" ++ x)%string.
Proof.
  intros Hp Hz Hr Hw Hnd t r. subst r.
  destruct (main_zip_run env _ _ z s Hp Hz Hr Hw) as (Hok & _ & Ha & _).
  fold t in Ha. eexists. split; [exact Hok|]. split; [exact Ha|].
  intros n. rewrite members_In.
  - split.
    + intros (p & tiles & x & Hin & Ht & Hx & ->).
      apply as_completed_In, zip_images_In in Hin.
      destruct Hin as (f & Hf & ->).
      exists f, tiles, x. rewrite stem_join. repeat split; auto.
      rewrite etf_join in Hx. cbn [glob_png after_extract after_pull dirs] in Hx.
      fold t in Hx. now rewrite PathFacts.strip_prefix_app in Hx.
    + intros (f & tiles & x & Hf & Ht & Hx & ->).
      exists (join t f), tiles, x. rewrite stem_join. repeat split; auto.
      * apply as_completed_In, zip_images_In. now exists f.
      * rewrite etf_join. cbn [glob_png after_extract after_pull dirs].
        fold t. now rewrite PathFacts.strip_prefix_app.
  - intros p q Hin Hin' E. apply (proj1 (as_completed_In _ _)) in Hin.
    apply (proj1 (as_completed_In _ _)) in Hin'.
    exact (zip_images_unique z t p q Hnd Hin Hin' E).
Qed.

Lemma image_run_members (input output_zip : Path) (s : State) :
  docker_pull env = Exit0 ->
  is_image (resolve env input) = true ->
  zip_writable env output_zip = true ->
  let ip := resolve env input in
  let r := main env input output_zip s in
  exists names,
    fst r = Ok tt /\ archives (snd r) output_zip = Some names /\
    (forall n, In n names <->
       exists tiles x,
         pyhist env ip = ToolDone tiles /\
         (In x (glob_png s (etf ip)) \/ In x tiles) /\
         n = (stem ip ++ "/" ++ x)%string) /\
    (forall x, In x (glob_png (snd r) (etf ip)) <->
       In x (glob_png s (etf ip)) \/
       exists tiles, pyhist env ip = ToolDone tiles /\ In x tiles).
Proof.
  intros Hp Hi Hw ip r. subst r.
  destruct (main_image_run env _ _ s Hp Hi Hw) as (Hok & _ & Ha & Hg).
  fold ip in Ha, Hg.
  assert (forall p, In p (as_completed env [ip]) <-> p = ip) as Hone.
  { intros p. rewrite as_completed_In. simpl. split.
    - intros [H | []]. now symmetry.
    - intros ->. now left. }
  eexists. split; [exact Hok|]. split; [exact Ha|]. split.
  - intros n. rewrite members_In.
    + split.
      * intros (p & tiles & x & Hin & Ht & Hx & ->).
        apply Hone in Hin. subst p. exists tiles, x. auto.
      * intros (tiles & x & Ht & Hx & ->).
        exists ip, tiles, x. repeat split; auto. now apply Hone.
    + intros p q Hin Hin' _. apply Hone in Hin, Hin'. congruence.
  - intros x. rewrite Hg, jobs_glob_In. cbn [glob_png after_pull]. split.
    + intros [H | (q & tiles & Hq & Ht & _ & Hx)]; [now left|].
      apply Hone in Hq. subst q. right. now exists tiles.
    + intros [H | (tiles & Ht & Hx)]; [now left|].
      right. exists ip, tiles. repeat split; auto. now apply Hone.
Qed.

End RunMembers.

(** C8, as stated, fails: two slides of one archive share the identifier
    [a]; the tool answers the same way in both runs, the jobs complete in a
    different order, and the second archive lacks a member of the first. *)
Lemma rerun_changes_members :
  let input := ["data"; "cases.zip"] in
  let r1 := main Collide.env_fwd input Demo.out Demo.s0 in
  let r2 := main Collide.env_bwd input Demo.out (snd r1) in
  pyhist Collide.env_bwd = pyhist Collide.env_fwd /\
  fst r1 = Ok tt /\ fst r2 = Ok tt /\
  archives (snd r1) Demo.out = Some ["a/a_000.png"; "a/a_001.png"] /\
  archives (snd r2) Demo.out = Some ["a/a_000.png"] /\
  ~ (forall names1 names2,
        archives (snd r1) Demo.out = Some names1 ->
        archives (snd r2) Demo.out = Some names2 ->
        forall n, In n names1 <-> In n names2).
Proof.
  vm_compute. repeat split.
  intros H.
  destruct (H _ _ eq_refl eq_refl
              (String "a" (String "/" (String "a" (String "_" (String "0"
                (String "0" (String "1" (String "." (String "p" (String "n"
                  (String "g" EmptyString))))))))))))
    as [Hin _].
  destruct Hin as [E | []]; [right; left; reflexivity | discriminate E].
Qed.

(** C8, amended. Two runs on the same input and output path, the second
    starting where the first ended, in worlds that agree on the input, with
    a tool that answers each image the same way in both runs: both complete
    and their archives have the same member names, for a single image and,
    when the recognised images of the archive have pairwise distinct
    identifiers, for an archive; whatever the completion orders and the names
    of the extraction directories. *)
Theorem rerun_same_members :
  forall (env1 env2 : Env) (input output_zip : Path) (s : State),
    (forall l, Permutation (as_completed env1 l) l) ->
    (forall l, Permutation (as_completed env2 l) l) ->
    docker_pull env1 = Exit0 -> docker_pull env2 = Exit0 ->
    zip_writable env1 output_zip = true ->
    zip_writable env2 output_zip = true ->
    resolve env2 input = resolve env1 input ->
    read_zip env2 (resolve env1 input) = read_zip env1 (resolve env1 input) ->
    let ip := resolve env1 input in
    let r1 := main env1 input output_zip s in
    let r2 := main env2 input output_zip (snd r1) in
    (is_image ip = true /\ pyhist env2 ip = pyhist env1 ip) \/
    (is_zip ip = true /\
     exists z, read_zip env1 ip = Some z /\ NoDup (member_stems z) /\
       forall f, In f (recognised z) ->
         pyhist env2 (join (mkdtemp env2 (dirs (snd r1))) f)
         = pyhist env1 (join (mkdtemp env1 (dirs s)) f)) ->
    exists names1 names2,
      fst r1 = Ok tt /\ fst r2 = Ok tt /\
      archives (snd r1) output_zip = Some names1 /\
      archives (snd r2) output_zip = Some names2 /\
      forall n, In n names1 <-> In n names2.
Proof.
  intros env1 env2 input output_zip s Hc1 Hc2 Hp1 Hp2 Hw1 Hw2 Hres Hzip
         ip r1 r2 [[Hi Htool] | (Hz & z & Hr & Hnd & Htool)].
  - destruct (image_run_members env1 Hc1 input output_zip s Hp1 Hi Hw1)
      as (names1 & Hok1 & Ha1 & Hn1 & Hg1).
    assert (is_image (resolve env2 input) = true) as Hi2 by now rewrite Hres.
    destruct (image_run_members env2 Hc2 input output_zip (snd r1) Hp2 Hi2 Hw2)
      as (names2 & Hok2 & Ha2 & Hn2 & _).
    rewrite Hres in Hn2. fold ip in Hn1, Hg1, Hn2. fold r1 in Hg1, Hn2.
    exists names1, names2. repeat split; auto.
    + intros Hn. apply Hn1 in Hn. destruct Hn as (tiles & x & Ht & Hx & ->).
      apply Hn2. exists tiles, x. repeat split; [congruence|].
      left. apply Hg1. destruct Hx as [Hx | Hx]; [now left|].
      right. now exists tiles.
    + intros Hn. apply Hn2 in Hn. destruct Hn as (tiles & x & Ht & Hx & ->).
      rewrite Htool in Ht.
      apply Hn1. exists tiles, x. repeat split; [assumption|].
      destruct Hx as [Hx | Hx]; [|now right].
      apply Hg1 in Hx. destruct Hx as [Hx | (t' & Ht' & Hx)]; [now left|].
      right. congruence.
  - destruct (zip_run_members env1 Hc1 input output_zip z s Hp1 Hz Hr Hw1 Hnd)
      as (names1 & Hok1 & Ha1 & Hn1).
    assert (is_zip (resolve env2 input) = true) as Hz2 by now rewrite Hres.
    assert (read_zip env2 (resolve env2 input) = Some z) as Hr2
        by (rewrite Hres, Hzip; exact Hr).
    destruct (zip_run_members env2 Hc2 input output_zip z (snd r1)
                Hp2 Hz2 Hr2 Hw2 Hnd) as (names2 & Hok2 & Ha2 & Hn2).
    exists names1, names2. repeat split; auto.
    + intros Hn. apply Hn1 in Hn.
      destruct Hn as (f & tiles & x & Hf & Ht & Hx & ->).
      apply Hn2. exists f, tiles, x. repeat split; auto.
      rewrite (Htool f Hf). exact Ht.
    + intros Hn. apply Hn2 in Hn.
      destruct Hn as (f & tiles & x & Hf & Ht & Hx & ->).
      apply Hn1. exists f, tiles, x. repeat split; auto.
      rewrite <- (Htool f Hf). exact Ht.
Qed.

Lemma rerun_same_members_witness :
  let input := ["data"; "slides.zip"] in
  let r1 := main Demo.env input Demo.out Demo.s0 in
  let r2 := main Demo.env input Demo.out (snd r1) in
  is_zip (resolve Demo.env input) = true /\
  NoDup (member_stems Demo.slides) /\
  exists names1 names2,
    archives (snd r1) Demo.out = Some names1 /\
    archives (snd r2) Demo.out = Some names2 /\
    forall n, In n names1 <-> In n names2.
Proof.
  assert (NoDup (member_stems Demo.slides)) as Hnd.
  { vm_compute. repeat constructor; simpl; intuition discriminate. }
  split; [reflexivity|]. split; [exact Hnd|].
  destruct (rerun_same_members Demo.env Demo.env ["data"; "slides.zip"]
              Demo.out Demo.s0
              demo_completion_order demo_completion_order
              eq_refl eq_refl eq_refl eq_refl eq_refl eq_refl
              (or_intror
                 (conj eq_refl
                    (ex_intro _ Demo.slides
                       (conj eq_refl
                          (conj Hnd (fun f _ => eq_refl)))))))
    as (names1 & names2 & _ & _ & H1 & H2 & H).
  exists names1, names2. auto.
Defined.

(** * Further properties of the script *)

(** ** Names, stems and suffixes *)

Module NameFacts.

Lemma substring_all (s : string) : substring 0 (String.length s) s = s.
Proof.
  induction s as [|c t IH]; simpl; [reflexivity | now rewrite IH].
Qed.

Lemma substring_split (s : string) :
  forall i, (substring 0 i s ++ substring i (String.length s - i) s)%string = s.
Proof.
  induction s as [|c t IH]; intros [|i]; simpl; try reflexivity.
  - now rewrite substring_all.
  - now rewrite IH.
Qed.

Lemma cut_bounds (n : string) (i : nat) :
  cut n = Some i -> 0 < i /\ i < String.length n - 1.
Proof.
  unfold cut. destruct (Str.rfind "." n) as [j|]; [|discriminate].
  destruct ((0 <? j) && (j <? String.length n - 1))%nat eqn:E; [|discriminate].
  intros [= <-]. apply andb_true_iff in E. destruct E as [E1 E2].
  apply Nat.ltb_lt in E1. apply Nat.ltb_lt in E2. now split.
Qed.

Lemma substring_head_nonempty (s : string) (i : nat) :
  0 < i -> i < String.length s -> substring 0 i s <> "".
Proof.
  destruct s as [|c t]; simpl; intros Hi Hlt.
  - inversion Hlt.
  - destruct i as [|i]; [inversion Hi | discriminate].
Qed.

Lemma length_append (a b : string) :
  String.length (a ++ b)%string = String.length a + String.length b.
Proof.
  induction a as [|c t IH]; simpl; [reflexivity | now rewrite IH].
Qed.

Lemma length_substring_head (s : string) :
  forall i, i <= String.length s -> String.length (substring 0 i s) = i.
Proof.
  induction s as [|c t IH]; intros [|i] H; simpl in *; try reflexivity.
  - inversion H.
  - f_equal. apply IH. now apply Nat.succ_le_mono.
Qed.

End NameFacts.

Lemma stem_suffix_name (p : Path) : (stem p ++ suffix p)%string = name p.
Proof.
  unfold stem, suffix, stem_of, suffix_of.
  destruct (cut (name p)) as [i|].
  - apply NameFacts.substring_split.
  - generalize (name p). intros n. induction n as [|c t IH]; simpl;
      [reflexivity | now rewrite IH].
Qed.

(** X1. A path that is taken for an image or for an archive has a stem that
    is not empty and a suffix of at least two characters, and its name is
    the stem followed by the suffix: a name such as [.png], which is all
    suffix, and a name such as [slide.], which ends in its dot, are neither
    image nor archive. The identifier of an image, hence the prefix of its
    archive members and the name of its tile folder, is never empty. *)
Theorem recognised_name_shape :
  forall p : Path,
    is_image p = true \/ is_zip p = true ->
    stem p <> "" /\ 2 <= String.length (suffix p) /\
    (stem p ++ suffix p)%string = name p.
Proof.
  intros p H.
  assert (suffix p <> "") as Hs.
  { intros E. unfold is_image, is_zip in H. rewrite E in H.
    destruct H as [H | H]; discriminate H. }
  pose proof (stem_suffix_name p) as Hname.
  split; [|split; [|exact Hname]];
    unfold stem, suffix, stem_of, suffix_of in *;
    destruct (cut (name p)) as [i|] eqn:C; try congruence;
    destruct (NameFacts.cut_bounds _ _ C) as [Hpos Hlt].
  - apply NameFacts.substring_head_nonempty; lia.
  - assert (i <= String.length (name p)) as Hle by lia.
    assert (String.length (substring 0 i (name p))
            + String.length (substring i (String.length (name p) - i) (name p))
            = String.length (name p)) as Hlen.
    { rewrite <- NameFacts.length_append. now rewrite Hname. }
    rewrite (NameFacts.length_substring_head _ _ Hle) in Hlen. lia.
Qed.

Lemma recognised_name_shape_witness :
  is_image ["data"; "a.ome.tif"] = true /\ stem ["data"; "a.ome.tif"] <> "".
Proof.
  split; [reflexivity|].
  exact (proj1 (recognised_name_shape ["data"; "a.ome.tif"]
                  (or_introl eq_refl))).
Defined.

(** ** The result of a run *)

Section Outcome.

Variable env : Env.

Lemma main_image_unwritable (input output_zip : Path) (s : State) :
  docker_pull env = Exit0 ->
  is_image (resolve env input) = true ->
  zip_writable env output_zip = false ->
  let l := as_completed env [resolve env input] in
  main env input output_zip s
  = (Raise (OSError output_zip), jobs_state env l (after_pull s)).
Proof.
  intros Hp Hi Hw l.
  rewrite (main_after_pull env _ _ _ Hp). unfold bind at 1.
  rewrite (process_files_image env _ _ Hi). fold l.
  unfold bind. now rewrite (create_output_zip_failed env _ _ _ Hw).
Qed.

Lemma jobs_map_all_failed (l : list Path) (s : State) :
  (forall p, In p l -> tool_failed env p = true) ->
  jobs_map env l s [] = [].
Proof.
  intros H.
  destruct (jobs_map env l s []) as [|[k d] m] eqn:E; [reflexivity|].
  destruct (jobs_map_entries env l s [] [] (fun _ _ H => match H with end) k d)
    as (p & [[] | Hp] & _ & _ & (tiles & Ht) & _).
  - rewrite E. now left.
  - specialize (H p Hp). unfold tool_failed in H. rewrite Ht in H.
    discriminate H.
Qed.

End Outcome.

Lemma main_returns :
  forall (env : Env) (input output_zip : Path) (s : State),
    fst (main env input output_zip s) = expected_result env input output_zip.
Proof.
  intros env input output_zip s. unfold expected_result.
  destruct (docker_pull env) as [|stderr] eqn:Hp.
  - destruct (is_image (resolve env input)) eqn:Hi.
    + destruct (zip_writable env output_zip) eqn:Hw.
      * now destruct (main_image_run env _ _ s Hp Hi Hw) as [-> _].
      * now rewrite (main_image_unwritable env _ _ s Hp Hi Hw).
    + destruct (is_zip (resolve env input)) eqn:Hz.
      * destruct (read_zip env (resolve env input)) as [z|] eqn:Hr.
        -- destruct (zip_writable env output_zip) eqn:Hw.
           ++ now destruct (main_zip_run env _ _ z s Hp Hz Hr Hw) as [-> _].
           ++ now destruct (main_zip_unwritable env _ _ z s Hp Hz Hr Hw)
                as [-> _].
        -- rewrite (main_bad_zip env _ _ s Hp Hz Hr). unfold extract_error.
           now destruct (zip_error (zip_failure env (resolve env input))).
      * now rewrite (main_unsupported env _ _ s Hp Hi Hz).
  - now rewrite (main_pull_failed env _ _ s stderr Hp).
Qed.

(** X2. How a run ends, with a normal return or with which exception, does
    not depend on what the jobs do, on the order in which they complete, on
    the name of the extraction directory, on what [rmtree] achieves or on
    what was on disk before: two runs that agree on the exit of the pull, on
    the resolved input, on whether its extraction goes through and on the
    exception if it does not, and on whether the output archive can be
    opened, end alike. *)
Theorem main_result :
  forall (env1 env2 : Env) (input output_zip : Path) (s1 s2 : State),
    resolve env2 input = resolve env1 input ->
    docker_pull env2 = docker_pull env1 ->
    (read_zip env2 (resolve env1 input) = None <->
     read_zip env1 (resolve env1 input) = None) ->
    zip_error (zip_failure env2 (resolve env1 input))
    = zip_error (zip_failure env1 (resolve env1 input)) ->
    zip_writable env2 output_zip = zip_writable env1 output_zip ->
    fst (main env2 input output_zip s2) = fst (main env1 input output_zip s1).
Proof.
  intros env1 env2 input output_zip s1 s2 Hres Hpull Hzip Herr Hw.
  rewrite !main_returns. unfold expected_result.
  rewrite Hres, Hpull, Herr, Hw.
  destruct (read_zip env1 (resolve env1 input)) as [z1|] eqn:E1;
    destruct (read_zip env2 (resolve env1 input)) as [z2|] eqn:E2;
    try reflexivity.
  - destruct Hzip as [Hzip _]. discriminate (Hzip eq_refl).
  - destruct Hzip as [_ Hzip]. discriminate (Hzip eq_refl).
Qed.

Lemma main_result_witness :
  resolve Worlds.env_failing ["data"; "slides.zip"]
  = resolve Demo.env ["data"; "slides.zip"] /\
  docker_pull Worlds.env_failing = docker_pull Demo.env /\
  fst (main Worlds.env_failing ["data"; "slides.zip"] Demo.out Demo.s0)
  = fst (main Demo.env ["data"; "slides.zip"] Demo.out Demo.s0).
Proof.
  split; [reflexivity|]. split; [reflexivity|].
  apply (main_result Demo.env Worlds.env_failing ["data"; "slides.zip"]
           Demo.out Demo.s0 Demo.s0 eq_refl eq_refl);
    [split; intros H; discriminate H | reflexivity | reflexivity].
Defined.

(** X3. A run that ends before packaging (the pull exits with a non-zero
    status, the input is of no supported kind, or its extraction raises)
    raises, leaves every archive on disk as it was and starts no container
    for any image. *)
Theorem fatal_error_before_packaging :
  forall (env : Env) (input output_zip : Path) (s : State),
    (exists stderr, docker_pull env = NonZero stderr) \/
    (is_image (resolve env input) = false /\
     is_zip (resolve env input) = false) \/
    (is_zip (resolve env input) = true /\
     read_zip env (resolve env input) = None) ->
    let r := main env input output_zip s in
    (exists e, fst r = Raise e) /\
    archives (snd r) = archives s /\
    (forall p, In (docker_cmd p) (procs (snd r)) -> In (docker_cmd p) (procs s)).
Proof.
  intros env input output_zip s H r. subst r.
  assert (forall p l, In (docker_cmd p) (l ++ [pull_cmd]) -> In (docker_cmd p) l)
    as Hnot.
  { intros p l Hin. apply in_app_or in Hin. destruct Hin as [Hin | [Hin | []]];
      [assumption|]. symmetry in Hin. now apply docker_cmd_not_pull in Hin. }
  destruct (docker_pull env) as [|stderr] eqn:Hp.
  - destruct H as [(stderr & H) | [[Hi Hz] | [Hz Hr]]]; [discriminate H | |].
    + rewrite (main_unsupported env _ _ s Hp Hi Hz). simpl. eauto.
    + rewrite (main_bad_zip env _ _ s Hp Hz Hr). simpl. eauto.
  - rewrite (main_pull_failed env _ _ s stderr Hp). simpl. eauto.
Qed.

Lemma fatal_error_before_packaging_witness :
  (is_zip (resolve Demo.env ["data"; "broken.zip"]) = true /\
   read_zip Demo.env (resolve Demo.env ["data"; "broken.zip"]) = None) /\
  archives (snd (main Demo.env ["data"; "broken.zip"] Demo.out Demo.s0))
  = archives Demo.s0.
Proof.
  split; [split; reflexivity|].
  exact (proj1 (proj2
    (fatal_error_before_packaging Demo.env ["data"; "broken.zip"] Demo.out
       Demo.s0 (or_intror (or_intror (conj eq_refl eq_refl)))))).
Defined.

(** X4. When the container fails for every image of the input, single image
    or archive, the run still returns normally and the output archive is
    written with no member. *)
Theorem all_jobs_failed_empty_archive :
  forall (env : Env) (input output_zip : Path) (s : State),
    docker_pull env = Exit0 ->
    zip_writable env output_zip = true ->
    is_image (resolve env input) = true \/
    (is_zip (resolve env input) = true /\
     read_zip env (resolve env input) <> None) ->
    (forall p, tool_failed env p = true) ->
    let r := main env input output_zip s in
    fst r = Ok tt /\ archives (snd r) output_zip = Some [].
Proof.
  intros env input output_zip s Hp Hw Hin Hfail r. subst r.
  destruct Hin as [Hi | [Hz Hr]].
  - destruct (main_image_run env _ _ s Hp Hi Hw) as (Hok & _ & Ha & _).
    split; [assumption|]. rewrite Ha.
    now rewrite jobs_map_all_failed by (intros p _; apply Hfail).
  - destruct (read_zip env (resolve env input)) as [z|] eqn:Hz';
      [|congruence].
    destruct (main_zip_run env _ _ z s Hp Hz Hz' Hw) as (Hok & _ & Ha & _).
    split; [assumption|]. rewrite Ha.
    now rewrite jobs_map_all_failed by (intros p _; apply Hfail).
Qed.

Lemma all_jobs_failed_empty_archive_witness :
  docker_pull Worlds.env_failing = Exit0 /\
  zip_writable Worlds.env_failing Demo.out = true /\
  is_zip (resolve Worlds.env_failing ["data"; "slides.zip"]) = true /\
  archives (snd (main Worlds.env_failing ["data"; "slides.zip"] Demo.out
                   Demo.s0)) Demo.out = Some [].
Proof.
  repeat (split; [reflexivity|]).
  refine (proj2 (all_jobs_failed_empty_archive Worlds.env_failing
                   ["data"; "slides.zip"] Demo.out Demo.s0 eq_refl eq_refl
                   (or_intror (conj eq_refl _)) (fun _ => eq_refl))).
  discriminate.
Defined.

(** ** Archives and their images *)

Lemma zip_images_recognised (z : ZipData) (t : Path) :
  zip_images z t = map (join t) (recognised z).
Proof.
  unfold zip_images, recognised.
  induction (namelist z) as [|f l IH]; simpl; [reflexivity|].
  rewrite is_image_join. destruct (is_image [mname f]); simpl; now rewrite IH.
Qed.

(** X6. An archive without any member of a recognised image suffix, the
    empty archive included, is a complete run: no container is started, the
    one process is the pull, the output archive is written with no member
    and the extraction directory is removed. *)
Theorem archive_without_images :
  forall (env : Env) (input output_zip : Path) (z : ZipData) (s : State),
    (forall l, Permutation (as_completed env l) l) ->
    docker_pull env = Exit0 ->
    is_zip (resolve env input) = true ->
    read_zip env (resolve env input) = Some z ->
    zip_writable env output_zip = true ->
    recognised z = [] ->
    let r := main env input output_zip s in
    fst r = Ok tt /\
    procs (snd r) = procs s ++ [pull_cmd] /\
    archives (snd r) output_zip = Some [] /\
    ~ In (mkdtemp env (dirs s)) (dirs (snd r)).
Proof.
  intros env input output_zip z s Hperm Hp Hz Hr Hw Hrec r. subst r.
  destruct (main_zip_run env _ _ z s Hp Hz Hr Hw) as (Hok & Hd & Ha & Hpr).
  assert (as_completed env (zip_images z (mkdtemp env (dirs s))) = []) as El.
  { rewrite zip_images_recognised, Hrec. simpl.
    apply Permutation_nil, Permutation_sym, Hperm. }
  rewrite El in Hd, Ha, Hpr. cbn [jobs_state jobs_map flat_map] in Hd, Ha, Hpr.
  repeat split; auto.
  unfold workspace_removed in Hd. cbn [outputs after_extract] in Hd.
  rewrite no_stale_output in Hd. cbn [negb orb] in Hd.
  rewrite Hd, filter_In, negb_true_iff, PathFacts.eqb_refl.
  intros [_ H]. discriminate H.
Qed.

Lemma archive_without_images_witness :
  (forall l, Permutation (as_completed Worlds.env_papers l) l) /\
  recognised Worlds.papers = [] /\
  procs (snd (main Worlds.env_papers ["data"; "papers.zip"] Demo.out Demo.s0))
  = procs Demo.s0 ++ [pull_cmd].
Proof.
  split; [intros l; apply Permutation_refl|]. split; [reflexivity|].
  exact (proj1 (proj2
    (archive_without_images Worlds.env_papers ["data"; "papers.zip"] Demo.out
       Worlds.papers Demo.s0 (fun l => Permutation_refl l)
       eq_refl eq_refl eq_refl eq_refl eq_refl))).
Defined.

(** ** The result mapping *)

Section Mapping.

Variable env : Env.

Local Abbreviation etf := expected_tile_folder.

Lemma jobs_state_app (l1 l2 : list Path) :
  forall s, jobs_state env (l1 ++ l2) s
            = jobs_state env l2 (jobs_state env l1 s).
Proof.
  induction l1 as [|p l1 IH]; intros s; simpl; [reflexivity | apply IH].
Qed.

Lemma jobs_map_app (l1 l2 : list Path) :
  forall s m, jobs_map env (l1 ++ l2) s m
              = jobs_map env l2 (jobs_state env l1 s) (jobs_map env l1 s m).
Proof.
  induction l1 as [|p l1 IH]; intros s m; simpl; [reflexivity | apply IH].
Qed.

Lemma jobs_map_other_key (l : list Path) (k : string) :
  (forall q, In q l -> stem q <> k) ->
  forall s m, dict_get k (jobs_map env l s m) = dict_get k m.
Proof.
  induction l as [|p l IH]; intros Hk s m; simpl; [reflexivity|].
  rewrite IH by (intros q Hq; apply Hk; now right).
  unfold job_map. destruct (pyhist env p) as [|tiles|];
    [reflexivity | | reflexivity].
  destruct (merge (glob_png s (etf p)) tiles); [reflexivity|].
  rewrite dict_get_set.
  destruct (String.eqb k (stem p)) eqn:E; [|reflexivity].
  apply String.eqb_eq in E. exfalso. apply (Hk p); [now left | now symmetry].
Qed.

Lemma dict_set_keys (k : string) (v : Path) (m : dict) (k' : string) :
  In k' (map fst (dict_set k v m)) -> k' = k \/ In k' (map fst m).
Proof.
  rewrite in_map_iff. intros ([a b] & <- & H). simpl.
  apply dict_set_In in H. destruct H as [[= -> ->] | H]; [now left|].
  right. apply in_map_iff. now exists (a, b).
Qed.

Lemma dict_set_NoDup (k : string) (v : Path) (m : dict) :
  NoDup (map fst m) -> NoDup (map fst (dict_set k v m)).
Proof.
  induction m as [|[a b] m IH]; simpl; intros H.
  - repeat constructor. intros [].
  - inversion H as [|? ? Hnotin Hnd]; subst.
    destruct (String.eqb k a) eqn:E; simpl.
    + apply String.eqb_eq in E. subst a. now constructor.
    + constructor; [|now apply IH].
      intros Hin. apply dict_set_keys in Hin. destruct Hin as [-> | Hin].
      * rewrite String.eqb_refl in E. discriminate E.
      * contradiction.
Qed.

Lemma dict_set_length (k : string) (v : Path) (m : dict) :
  List.length (dict_set k v m) <= S (List.length m).
Proof.
  induction m as [|[a b] m IH]; simpl; [lia|].
  destruct (String.eqb k a); simpl; lia.
Qed.

Lemma jobs_map_invariant (l : list Path) :
  forall s m,
    NoDup (map fst m) ->
    NoDup (map fst (jobs_map env l s m)) /\
    List.length (jobs_map env l s m) <= List.length m + List.length l.
Proof.
  induction l as [|p l IH]; intros s m Hnd; simpl.
  - split; [assumption | lia].
  - assert (NoDup (map fst (job_map env p s m))
            /\ List.length (job_map env p s m) <= S (List.length m)) as [H1 H2].
    { unfold job_map. destruct (pyhist env p) as [|tiles|];
        [split; auto | | split; auto].
      destruct (merge (glob_png s (etf p)) tiles); [split; auto|].
      split; [now apply dict_set_NoDup | apply dict_set_length]. }
    destruct (IH (after_collect env p s) _ H1) as [H3 H4].
    split; [assumption | lia].
Qed.

End Mapping.

(** X7. The last completed job of an identifier wins: when a job whose
    container wrote tiles completes and no job completing after it has the
    same stem, the mapping returned by the dispatch sends that stem to the
    tile folder of that job, whichever jobs of the same stem completed
    before. *)
Theorem last_completed_wins :
  forall (env : Env) (image_paths l1 l2 : list Path) (p : Path)
         (tiles : list string) (s : State),
    as_completed env image_paths = l1 ++ p :: l2 ->
    pyhist env p = ToolDone tiles ->
    tiles <> [] ->
    (forall q, In q l2 -> stem q <> stem p) ->
    exists m,
      fst (dispatch env image_paths s) = Ok m /\
      dict_get (stem p) m = Some (expected_tile_folder p).
Proof.
  intros env image_paths l1 l2 p tiles s El Ht Hne Hl2.
  rewrite dispatch_eq, El. eexists. split; [reflexivity|].
  rewrite jobs_map_app. simpl.
  rewrite jobs_map_other_key by assumption.
  unfold job_map. rewrite Ht.
  destruct (merge (glob_png (jobs_state env l1 s) (expected_tile_folder p))
              tiles) eqn:G.
  - apply merge_nil in G. destruct G as [_ G]. contradiction.
  - rewrite dict_get_set, String.eqb_refl. reflexivity.
Qed.

Lemma last_completed_wins_witness :
  as_completed Collide.env_bwd
    [["w"; "x"; "a.svs"]; ["w"; "y"; "a.svs"]]
  = [["w"; "y"; "a.svs"]] ++ ["w"; "x"; "a.svs"] :: [] /\
  pyhist Collide.env_bwd ["w"; "x"; "a.svs"] = ToolDone ["a_000.png"] /\
  exists m,
    fst (dispatch Collide.env_bwd
           [["w"; "x"; "a.svs"]; ["w"; "y"; "a.svs"]] Demo.s0) = Ok m /\
    dict_get "a" m = Some ["w"; "x"; "output"; "a"; "a_tiles"].
Proof.
  split; [reflexivity|]. split; [reflexivity|].
  refine (last_completed_wins Collide.env_bwd
            [["w"; "x"; "a.svs"]; ["w"; "y"; "a.svs"]]
            [["w"; "y"; "a.svs"]] [] ["w"; "x"; "a.svs"] ["a_000.png"]
            Demo.s0 eq_refl eq_refl _ (fun q H => match H with end)).
  discriminate.
Defined.

(** X8. The mapping returned by the dispatch has pairwise distinct keys,
    each the stem of a submitted image, and no more entries than images were
    submitted. *)
Theorem result_mapping_keys :
  forall (env : Env) (image_paths : list Path) (s : State),
    (forall l, Permutation (as_completed env l) l) ->
    exists m,
      fst (dispatch env image_paths s) = Ok m /\
      NoDup (map fst m) /\
      List.length m <= List.length image_paths /\
      forall k, In k (map fst m) -> In k (map stem image_paths).
Proof.
  intros env image_paths s Hperm. rewrite dispatch_eq. eexists.
  split; [reflexivity|].
  destruct (jobs_map_invariant env (as_completed env image_paths) s []
              (NoDup_nil _)) as [H1 H2].
  split; [assumption|]. split.
  - rewrite (Permutation_length (Hperm image_paths)) in H2. exact H2.
  - intros k Hk. apply in_map_iff in Hk. destruct Hk as ([k' d] & <- & Hin).
    destruct (jobs_map_entries env _ s [] [] (fun _ _ H => match H with end)
                k' d Hin) as (p & [[] | Hp] & <- & _).
    simpl. apply in_map. apply (Permutation_in _ (Hperm image_paths) Hp).
Qed.

Lemma result_mapping_keys_witness :
  (forall l, Permutation (as_completed Demo.env l) l) /\
  exists m,
    fst (dispatch Demo.env [["data"; "a.svs"]; ["data"; "b.svs"]] Demo.s0)
    = Ok m /\ NoDup (map fst m).
Proof.
  split; [exact demo_completion_order|].
  destruct (result_mapping_keys Demo.env
              [["data"; "a.svs"]; ["data"; "b.svs"]] Demo.s0
              demo_completion_order) as (m & H1 & H2 & _).
  exists m. split; assumption.
Defined.

(** ** The log and the file system *)

Lemma filter_Permutation {A} (f : A -> bool) (l l' : list A) :
  Permutation l l' -> Permutation (filter f l) (filter f l').
Proof.
  induction 1 as [|x l l' _ IH|x y l|l l' l'' _ IH1 _ IH2]; simpl.
  - constructor.
  - destruct (f x); [now constructor | assumption].
  - destruct (f x), (f y); try apply Permutation_refl. constructor.
  - now transitivity (filter f l').
Qed.

Lemma filter_length_Permutation {A} (f : A -> bool) (l l' : list A) :
  Permutation l l' ->
  List.length (filter f l) = List.length (filter f l').
Proof.
  induction 1 as [|x l l' _ IH|x y l|l l' l'' _ IH1 _ IH2]; simpl.
  - reflexivity.
  - destruct (f x); simpl; now rewrite IH.
  - destruct (f x), (f y); reflexivity.
  - now rewrite IH1.
Qed.

Section LogCount.

Variable env : Env.

Lemma job_log_errors (p : Path) (s : State) :
  List.length (filter is_error (job_log env p s))
  = (if tool_failed env p then 2 else 0)
    + (if mkdir_raised env p then 1 else 0).
Proof.
  unfold job_log, tool_failed, mkdir_raised.
  destruct (pyhist env p) as [stderr|tiles|e].
  - reflexivity.
  - destruct (merge (glob_png s (expected_tile_folder p)) tiles); reflexivity.
  - reflexivity.
Qed.

Lemma jobs_log_errors (l : list Path) :
  forall s,
    List.length (filter is_error (jobs_log env l s))
    = 2 * List.length (filter (tool_failed env) l)
      + List.length (filter (mkdir_raised env) l).
Proof.
  induction l as [|p l IH]; intros s; [reflexivity|].
  cbn [jobs_log filter]. rewrite filter_app, List.length_app, job_log_errors, IH.
  destruct (tool_failed env p), (mkdir_raised env p); simpl; lia.
Qed.

Lemma job_procs_started (l : list Path) :
  flat_map (job_procs env) l
  = map docker_cmd (filter (fun p => negb (mkdir_raised env p)) l).
Proof.
  induction l as [|p l IH]; [reflexivity|].
  cbn [flat_map filter]. rewrite IH. unfold job_procs, mkdir_raised.
  destruct (pyhist env p); reflexivity.
Qed.

End LogCount.

(** X9. The ERROR lines of the dispatch count its failed jobs: a job whose
    container exits with a non-zero status leaves two, one written by
    [run_pyhist_docker] and one by the collection loop; a job whose [output]
    directory cannot be made leaves one, written by the collection loop; a
    job whose container exits with status zero leaves none. *)
Theorem two_error_lines_per_failed_job :
  forall (env : Env) (image_paths : list Path) (s : State),
    (forall l, Permutation (as_completed env l) l) ->
    exists new,
      log (snd (dispatch env image_paths s)) = log s ++ new /\
      List.length (filter is_error new)
      = 2 * List.length (filter (tool_failed env) image_paths)
        + List.length (filter (mkdir_raised env) image_paths).
Proof.
  intros env image_paths s Hperm. rewrite dispatch_eq. cbn [snd].
  exists (jobs_log env (as_completed env image_paths) s).
  split; [apply jobs_state_log|].
  rewrite jobs_log_errors.
  now rewrite !(filter_length_Permutation _ _ _ (Hperm image_paths)).
Qed.

Lemma two_error_lines_per_failed_job_witness :
  (forall l, Permutation (as_completed Demo.env l) l) /\
  exists new,
    log (snd (dispatch Demo.env [["data"; "a.svs"]; ["data"; "b.svs"]]
                Demo.s0)) = log Demo.s0 ++ new /\
    List.length (filter is_error new) = 2.
Proof.
  split; [exact demo_completion_order|].
  destruct (two_error_lines_per_failed_job Demo.env
              [["data"; "a.svs"]; ["data"; "b.svs"]] Demo.s0
              demo_completion_order) as (new & H1 & H2).
  exists new. split; [exact H1 | exact H2].
Defined.

(** X10. The dispatch never raises: whatever the jobs do, it returns a
    mapping; it makes and removes no temporary directory and touches no
    archive; and the processes it spawns are, up to their order, one
    container for each submitted image whose [output] directory could be
    made, and nothing else. *)
Theorem dispatch_frame :
  forall (env : Env) (image_paths : list Path) (s : State),
    (forall l, Permutation (as_completed env l) l) ->
    let r := dispatch env image_paths s in
    (exists m, fst r = Ok m) /\
    dirs (snd r) = dirs s /\
    archives (snd r) = archives s /\
    exists new,
      procs (snd r) = procs s ++ new /\
      Permutation new
        (map docker_cmd
             (filter (fun p => negb (mkdir_raised env p)) image_paths)).
Proof.
  intros env image_paths s Hperm r. subst r. rewrite dispatch_eq. cbn [fst snd].
  destruct (jobs_state_frame env (as_completed env image_paths) s)
    as (Hd & Ha & Hp).
  split; [eauto|]. split; [assumption|]. split; [assumption|].
  exists (flat_map (job_procs env) (as_completed env image_paths)).
  split; [assumption|]. rewrite job_procs_started.
  apply Permutation_map, filter_Permutation, Hperm.
Qed.

Lemma dispatch_frame_witness :
  (forall l, Permutation (as_completed Worlds.env_blocked l) l) /\
  procs (snd (dispatch Worlds.env_blocked
                [["data"; "a.svs"]; ["data"; "b.svs"]] Demo.s0))
  = procs Demo.s0.
Proof.
  split; [intros l; apply Permutation_refl|].
  destruct (dispatch_frame Worlds.env_blocked
              [["data"; "a.svs"]; ["data"; "b.svs"]] Demo.s0
              (fun l => Permutation_refl l)) as (_ & _ & _ & new & H1 & H2).
  apply Permutation_sym, Permutation_nil in H2. rewrite H1, H2.
  apply app_nil_r.
Defined.




(** ** Identifiers and tile folders *)

Section Presence.

Variable env : Env.

Local Abbreviation etf := expected_tile_folder.

Lemma nonempty_In (l : list string) : l <> [] <-> exists x, In x l.
Proof.
  destruct l as [|x l]; split.
  - congruence.
  - intros (x & []).
  - intros _. exists x. now left.
  - discriminate.
Qed.

(** An identifier is in the mapping exactly when some job of that stem had
    its container exit with status zero and its folder holds a file. *)
Lemma jobs_map_present (l : list Path) (s : State) (k : string) :
  dict_get k (jobs_map env l s []) <> None <->
  exists p tiles,
    In p l /\ stem p = k /\ pyhist env p = ToolDone tiles /\
    glob_png (jobs_state env l s) (etf p) <> [].
Proof.
  split.
  - intros H. destruct (dict_get k (jobs_map env l s [])) as [d|] eqn:G;
      [|congruence].
    apply dict_get_In in G.
    destruct (jobs_map_entries env l s [] [] (fun _ _ H => match H with end)
                k d G) as (p & [[] | Hp] & Hk & -> & (tiles & Ht) & Hg).
    exists p, tiles. auto.
  - intros (p & tiles & Hp & <- & Ht & Hg).
    apply (jobs_map_included env l s [] [] (fun _ _ H => match H with end)
             p tiles); auto.
Qed.

End Presence.

(** X13. Which identifiers the mapping holds does not depend on the order
    in which the jobs complete: two dispatches of the same images from the
    same state, with a tool that answers alike, return mappings with the same
    keys. (Which folder a shared identifier is sent to does depend on it.) *)
Theorem mapping_keys_order_independent :
  forall (env1 env2 : Env) (image_paths : list Path) (s : State),
    (forall l, Permutation (as_completed env1 l) l) ->
    (forall l, Permutation (as_completed env2 l) l) ->
    (forall p, pyhist env2 p = pyhist env1 p) ->
    exists m1 m2,
      fst (dispatch env1 image_paths s) = Ok m1 /\
      fst (dispatch env2 image_paths s) = Ok m2 /\
      forall k, dict_get k m1 <> None <-> dict_get k m2 <> None.
Proof.
  intros env1 env2 image_paths s Hc1 Hc2 Htool.
  rewrite !dispatch_eq. do 2 eexists. split; [reflexivity|].
  split; [reflexivity|]. cbn [fst].
  assert (forall enva envb,
            (forall l, Permutation (as_completed enva l) l) ->
            (forall l, Permutation (as_completed envb l) l) ->
            (forall p, pyhist envb p = pyhist enva p) ->
            forall k,
              dict_get k (jobs_map enva (as_completed enva image_paths) s [])
              <> None ->
              dict_get k (jobs_map envb (as_completed envb image_paths) s [])
              <> None) as Hone.
  { intros enva envb Ha Hb Hab k H.
    apply jobs_map_present in H.
    destruct H as (p & tiles & Hp & Hk & Ht & Hg).
    apply jobs_map_present. exists p, tiles.
    assert (forall q, In q (as_completed enva image_paths)
                      -> In q (as_completed envb image_paths)) as Hin.
    { intros q Hq. apply (Permutation_in _ (Permutation_sym (Hb _))).
      apply (Permutation_in _ (Ha _) Hq). }
    repeat split; auto; [congruence|].
    apply nonempty_In in Hg. destruct Hg as (x & Hx). apply nonempty_In.
    exists x. apply jobs_glob_In in Hx. apply jobs_glob_In.
    destruct Hx as [Hx | (q & tq & Hq & Htq & E & Hx)]; [now left|].
    right. exists q, tq. repeat split; auto. congruence. }
  intros k. split; [apply (Hone env1 env2) | apply (Hone env2 env1)]; auto.
Qed.

Lemma mapping_keys_order_independent_witness :
  (forall l, Permutation (as_completed Collide.env_fwd l) l) /\
  (forall l, Permutation (as_completed Collide.env_bwd l) l) /\
  exists m1 m2,
    fst (dispatch Collide.env_fwd
           [["w"; "x"; "a.svs"]; ["w"; "y"; "a.svs"]] Demo.s0) = Ok m1 /\
    fst (dispatch Collide.env_bwd
           [["w"; "x"; "a.svs"]; ["w"; "y"; "a.svs"]] Demo.s0) = Ok m2 /\
    forall k, dict_get k m1 <> None <-> dict_get k m2 <> None.
Proof.
  split; [intros l; apply Permutation_refl|].
  split; [intros l; apply Permutation_sym, Permutation_rev|].
  exact (mapping_keys_order_independent Collide.env_fwd Collide.env_bwd
           [["w"; "x"; "a.svs"]; ["w"; "y"; "a.svs"]] Demo.s0
           (fun l => Permutation_refl l)
           (fun l => Permutation_sym (Permutation_rev l))
           (fun p => eq_refl)).
Defined.

(** X14. Two images are given the same tile folder exactly when they lie
    in the same directory and have the same stem, whatever their suffixes:
    [a.png] and [a.jpg] of one directory share their folder, images of
    different directories or of different stems never do. *)
Theorem tile_folder_shared :
  forall p q : Path,
    expected_tile_folder p = expected_tile_folder q <->
    parent p = parent q /\ stem p = stem q.
Proof.
  intros p q. unfold expected_tile_folder. split.
  - intros H. apply app_inj_tail in H. destruct H as [H _].
    apply app_inj_tail in H. destruct H as [H Hs].
    apply app_inj_tail in H. destruct H as [H _]. now split.
  - intros [-> ->]. reflexivity.
Qed.

(** ** The last lines of the log *)

Section LastLines.

Variable env : Env.

Lemma job_log_msgs (p : Path) (s : State) (lvl : Level) (msg : Msg) :
  In (lvl, msg) (job_log env p s) ->
  msg <> Completed /\ forall o, msg <> OutputZipCreated o.
Proof.
  unfold job_log. intros H.
  assert (forall l : list (Level * Msg),
            In (lvl, msg) l ->
            Forall (fun e => snd e <> Completed
                             /\ forall o, snd e <> OutputZipCreated o) l ->
            msg <> Completed /\ forall o, msg <> OutputZipCreated o) as Hall.
  { intros l Hin Hf. rewrite Forall_forall in Hf. exact (Hf _ Hin). }
  apply (Hall _ H).
  destruct (pyhist env p) as [stderr|tiles|e];
    [|destruct (merge (glob_png s (expected_tile_folder p)) tiles)|];
    repeat constructor; simpl; discriminate.
Qed.

Lemma jobs_log_msgs (l : list Path) :
  forall (s : State) (lvl : Level) (msg : Msg),
    In (lvl, msg) (jobs_log env l s) ->
    msg <> Completed /\ forall o, msg <> OutputZipCreated o.
Proof.
  induction l as [|p l IH]; intros s lvl msg H; [destruct H|].
  cbn [jobs_log] in H. apply in_app_or in H. destruct H as [H | H].
  - exact (job_log_msgs p s lvl msg H).
  - exact (IH _ _ _ H).
Qed.

Lemma main_image_log (input output_zip : Path) (s : State) :
  docker_pull env = Exit0 ->
  is_image (resolve env input) = true ->
  zip_writable env output_zip = true ->
  let l := as_completed env [resolve env input] in
  log (snd (main env input output_zip s))
  = log s ++ ((INFO, PulledImage) :: jobs_log env l (after_pull s))
          ++ [(INFO, OutputZipCreated output_zip); (INFO, Completed)].
Proof.
  intros Hp Hi Hw l.
  rewrite (main_image_eq env _ _ s Hp Hi Hw). fold l.
  cbn [logging snd log after_packaging].
  rewrite jobs_state_log. cbn [log after_pull].
  rewrite <- !app_assoc. reflexivity.
Qed.

Lemma main_zip_log (input output_zip : Path) (z : ZipData) (s : State) :
  docker_pull env = Exit0 ->
  is_zip (resolve env input) = true ->
  read_zip env (resolve env input) = Some z ->
  zip_writable env output_zip = true ->
  let t := mkdtemp env (dirs s) in
  let l := as_completed env (zip_images z t) in
  log (snd (main env input output_zip s))
  = log s ++ ((INFO, PulledImage) :: (INFO, ZipExtracted t)
                :: jobs_log env l (after_extract env z (after_pull s)))
          ++ [(INFO, OutputZipCreated output_zip); (INFO, Completed)].
Proof.
  intros Hp Hz Hr Hw t l.
  rewrite (main_zip_eq env _ _ z s Hp Hz Hr Hw). fold t. fold l.
  cbn [logging snd log].
  destruct (rmtree_frame env t
              (after_packaging
                 (jobs_map env l (after_extract env z (after_pull s)) [])
                 output_zip
                 (jobs_state env l (after_extract env z (after_pull s)))))
    as (Hlog & _).
  rewrite Hlog. cbn [log after_packaging].
  rewrite jobs_state_log. cbn [log after_extract after_pull dirs]. fold t.
  rewrite <- !app_assoc. reflexivity.
Qed.

Lemma main_zip_unwritable_log (input output_zip : Path) (z : ZipData)
      (s : State) :
  docker_pull env = Exit0 ->
  is_zip (resolve env input) = true ->
  read_zip env (resolve env input) = Some z ->
  zip_writable env output_zip = false ->
  let t := mkdtemp env (dirs s) in
  let l := as_completed env (zip_images z t) in
  log (snd (main env input output_zip s))
  = log s ++ (INFO, PulledImage) :: (INFO, ZipExtracted t)
               :: jobs_log env l (after_extract env z (after_pull s)).
Proof.
  intros Hp Hz Hr Hw t l.
  rewrite (main_zip_unwritable_eq env _ _ z s Hp Hz Hr Hw). fold t. fold l.
  cbn [snd].
  rewrite jobs_state_log. cbn [log after_extract after_pull dirs]. fold t.
  rewrite <- !app_assoc. reflexivity.
Qed.

End LastLines.

(** X15. The log line of completion is written exactly by the runs that
    return normally: such a run appends lines that end with the line of the
    written output archive followed by the line of completion, neither of
    which occurs before; a run that raises appends neither line. *)
Theorem completion_is_logged_last :
  forall (env : Env) (input output_zip : Path) (s : State),
    let r := main env input output_zip s in
    exists new,
      log (snd r) = log s ++ new /\
      (fst r = Ok tt ->
       exists before,
         new = before ++ [(INFO, OutputZipCreated output_zip);
                          (INFO, Completed)] /\
         forall lvl, ~ In (lvl, Completed) before /\
                     ~ In (lvl, OutputZipCreated output_zip) before) /\
      (fst r <> Ok tt ->
       forall lvl, ~ In (lvl, Completed) new /\
                   ~ In (lvl, OutputZipCreated output_zip) new).
Proof.
  intros env input output_zip s r. subst r.
  assert (forall l s0 lvl pre,
            (forall lvl' msg, In (lvl', msg) pre ->
               msg <> Completed /\ forall o, msg <> OutputZipCreated o) ->
            ~ In (lvl, Completed) (pre ++ jobs_log env l s0) /\
            ~ In (lvl, OutputZipCreated output_zip) (pre ++ jobs_log env l s0))
    as Hjobs.
  { intros l s0 lvl pre Hpre. split; intros H; apply in_app_or in H;
      destruct H as [H | H].
    - now apply Hpre in H.
    - now apply jobs_log_msgs in H.
    - apply Hpre in H. destruct H as [_ H]. now apply (H output_zip).
    - apply jobs_log_msgs in H. destruct H as [_ H]. now apply (H output_zip). }
  assert (forall (pre : list (Level * Msg)),
            Forall (fun e => snd e <> Completed
                             /\ forall o, snd e <> OutputZipCreated o) pre ->
            forall lvl' msg, In (lvl', msg) pre ->
              msg <> Completed /\ forall o, msg <> OutputZipCreated o)
    as Hpre.
  { intros pre Hf lvl' msg Hin. rewrite Forall_forall in Hf.
    exact (Hf _ Hin). }
  pose proof (main_returns env input output_zip s) as Hres.
  unfold expected_result in Hres.
  destruct (docker_pull env) as [|stderr] eqn:Hp.
  - destruct (is_image (resolve env input)) eqn:Hi.
    + destruct (zip_writable env output_zip) eqn:Hw.
      * eexists. split; [apply (main_image_log env _ _ s Hp Hi Hw)|].
        split; [|congruence]. intros _. eexists. split; [reflexivity|].
        intros lvl.
        apply (Hjobs _ _ lvl [(INFO, PulledImage)]), Hpre.
        repeat constructor; simpl; discriminate.
      * rewrite (main_image_unwritable env _ _ s Hp Hi Hw) in *.
        cbn [fst snd] in *. rewrite jobs_state_log. cbn [log after_pull].
        rewrite <- app_assoc. eexists. split; [reflexivity|].
        split; [congruence|]. intros _ lvl.
        apply (Hjobs _ _ lvl [(INFO, PulledImage)]), Hpre.
        repeat constructor; simpl; discriminate.
    + destruct (is_zip (resolve env input)) eqn:Hz.
      * destruct (read_zip env (resolve env input)) as [z|] eqn:Hr.
        -- destruct (zip_writable env output_zip) eqn:Hw.
           ++ eexists. split; [apply (main_zip_log env _ _ z s Hp Hz Hr Hw)|].
              split; [|congruence]. intros _. eexists.
              split; [reflexivity|]. intros lvl.
              apply (Hjobs _ _ lvl
                       [(INFO, PulledImage);
                        (INFO, ZipExtracted (mkdtemp env (dirs s)))]), Hpre.
              repeat constructor; simpl; discriminate.
           ++ eexists.
              split; [apply (main_zip_unwritable_log env _ _ z s Hp Hz Hr Hw)|].
              split; [congruence|]. intros _ lvl.
              apply (Hjobs _ _ lvl
                       [(INFO, PulledImage);
                        (INFO, ZipExtracted (mkdtemp env (dirs s)))]), Hpre.
              repeat constructor; simpl; discriminate.
        -- rewrite (main_bad_zip env _ _ s Hp Hz Hr).
           cbn [fst snd log after_failed_extract after_pull].
           eexists. split; [reflexivity|]. split; [discriminate|].
           intros _ lvl. split; intros [H | []]; discriminate H.
      * rewrite (main_unsupported env _ _ s Hp Hi Hz). cbn [fst snd log after_pull].
        eexists. split; [reflexivity|]. split; [discriminate|].
        intros _ lvl. split; intros [H | []]; discriminate H.
  - rewrite (main_pull_failed env _ _ s stderr Hp). cbn [fst snd log].
    eexists. split; [reflexivity|]. split; [discriminate|].
    intros _ lvl. split; intros [H | []]; discriminate H.
Qed.
